(** * next-fhi-cli: the scaffolding command and the naming validator it generates

    The repository is one TypeScript file, [src/cli.ts].  It holds two
    programs:

    - the [init] action of the command-line tool, a sequence of external
      process invocations and file writes (module [Init] below);
    - the text of [.husky/validate-naming.js], a Node script written into the
      generated project and run by the pre-commit hook over the staged file
      paths (module [ValidateNaming] below).

    Both are embedded as executable Rocq functions.  JavaScript strings are
    [string]s; the only characters the code ever compares against are ASCII. *)

From Stdlib Require Import String Ascii List Bool Arith Lia Permutation.
From Stdlib Require DecimalString SpecFloat.
Import ListNotations.
Open Scope string_scope.

Set Implicit Arguments.

(** ** JavaScript string and array methods used by the code *)

Module Js.

(** [s.startsWith(p)] *)
Fixpoint startsWith (s p : string) {struct p} : bool :=
  match p with
  | EmptyString => true
  | String b p' =>
      match s with
      | EmptyString => false
      | String a s' => Ascii.eqb a b && startsWith s' p'
      end
  end.

(** [s.endsWith(p)]: some suffix of [s] is [p]. *)
Fixpoint endsWith (s p : string) : bool :=
  if String.eqb s p then true
  else match s with
       | EmptyString => false
       | String _ s' => endsWith s' p
       end.

(** [s.includes(p)]: [p] starts at some position of [s]. *)
Fixpoint includes (s p : string) : bool :=
  if startsWith s p then true
  else match s with
       | EmptyString => false
       | String _ s' => includes s' p
       end.

(** [s.split(c)] for a separator of one character: never the empty array. *)
Fixpoint split (c : ascii) (s : string) : list string :=
  match s with
  | EmptyString => [EmptyString]
  | String a s' =>
      if Ascii.eqb a c then EmptyString :: split c s'
      else match split c s' with
           | x :: xs => String a x :: xs
           | [] => [String a EmptyString]
           end
  end.

(** [arr[i]] on an array of strings; out of range is [undefined], which the
    code never reaches and which is rendered as the empty string. *)
Definition index (arr : list string) (i : nat) : string := nth i arr "".

(** [arr.includes(x)] *)
Definition arrayIncludes (arr : list string) (x : string) : bool :=
  existsb (String.eqb x) arr.

(** [arr.slice(0, n)] *)
Definition slice0 (arr : list string) (n : nat) : list string := firstn n arr.

(** [arr.join(sep)] *)
Definition join (sep : string) (arr : list string) : string :=
  String.concat sep arr.

End Js.

(** ** Regular expressions

    The two patterns of the code are anchored at both ends and carry no flag,
    so [re.test(s)] asks whether the whole of [s] is in the language.  The
    matcher works by derivatives. *)

Module Regex.

(** A character class is a list of inclusive ranges. *)
Definition charClass := list (ascii * ascii).

Definition inClass (cl : charClass) (c : ascii) : bool :=
  existsb (fun r => Nat.leb (nat_of_ascii (fst r)) (nat_of_ascii c)
                    && Nat.leb (nat_of_ascii c) (nat_of_ascii (snd r))) cl.

Inductive regex : Type :=
| Void : regex
| Eps : regex
| Class : charClass -> regex
| Cat : regex -> regex -> regex
| Alt : regex -> regex -> regex
| Star : regex -> regex.

(** [r+] *)
Definition Plus (r : regex) : regex := Cat r (Star r).

Fixpoint nullable (r : regex) : bool :=
  match r with
  | Void => false
  | Eps => true
  | Class _ => false
  | Cat a b => nullable a && nullable b
  | Alt a b => nullable a || nullable b
  | Star _ => true
  end.

Fixpoint deriv (r : regex) (c : ascii) : regex :=
  match r with
  | Void => Void
  | Eps => Void
  | Class cl => if inClass cl c then Eps else Void
  | Cat a b =>
      if nullable a then Alt (Cat (deriv a c) b) (deriv b c)
      else Cat (deriv a c) b
  | Alt a b => Alt (deriv a c) (deriv b c)
  | Star a => Cat (deriv a c) (Star a)
  end.

Fixpoint matchList (r : regex) (s : list ascii) : bool :=
  match s with
  | [] => nullable r
  | c :: s' => matchList (deriv r c) s'
  end.

(** [/^r$/.test(s)] *)
Definition test (r : regex) (s : string) : bool :=
  matchList r (list_ascii_of_string s).

End Regex.

(** ** Node's [path] module, POSIX flavour

    [path.join] and [path.relative] belong to the Node runtime, not to the
    repository.  The developments below take them as parameters; this module
    gives the lexical POSIX behaviour, used to run the programs on concrete
    inputs. *)

Module Posix.

(** [path.sep] *)
Definition sep : ascii := "/"%char.

(** Segments of a path with [.] and empty segments dropped and [..] resolved;
    [acc] holds the segments kept so far, innermost first.  [above] tells
    whether [..] may climb above the start (relative paths) or not (absolute
    paths, where [/..] is [/]). *)
Fixpoint resolveSegments (above : bool) (acc : list string) (segs : list string)
  : list string :=
  match segs with
  | [] => rev acc
  | s :: rest =>
      if String.eqb s "" || String.eqb s "." then resolveSegments above acc rest
      else if String.eqb s ".." then
        match acc with
        | [] => resolveSegments above (if above then [".."] else []) rest
        | top :: acc' =>
            if String.eqb top ".." then resolveSegments above (s :: acc) rest
            else resolveSegments above acc' rest
        end
      else resolveSegments above (s :: acc) rest
  end.

Definition isAbsolute (p : string) : bool := Js.startsWith p "/".

(** Segments of [path.resolve(p)] in a process whose working directory is
    the absolute path [cwd]. *)
Definition resolve (cwd p : string) : list string :=
  resolveSegments false []
    (Js.split sep (if isAbsolute p then p else cwd ++ "/" ++ p)).

(** [path.join(a, b)]: the two joined by a separator, then normalised; a
    separator at the end is kept. *)
Definition join (a b : string) : string :=
  let raw := if String.eqb a "" then b else if String.eqb b "" then a
             else a ++ "/" ++ b in
  let abs := isAbsolute raw in
  let trailing := Js.endsWith raw "/" in
  let body := Js.join "/" (resolveSegments (negb abs) [] (Js.split sep raw)) in
  if String.eqb body "" then
    if abs then "/" else if trailing then "./" else "."
  else (if abs then "/" else "") ++ body ++ (if trailing then "/" else "").

Fixpoint dropCommon (xs ys : list string) : list string * list string :=
  match xs, ys with
  | x :: xs', y :: ys' =>
      if String.eqb x y then dropCommon xs' ys' else (xs, ys)
  | _, _ => (xs, ys)
  end.

(** [path.relative(from, to)] in a process whose working directory is [cwd]:
    one [..] per segment of [from] below the common ancestor, then what is
    left of [to]. *)
Definition relative (cwd from to : string) : string :=
  let (up, down) := dropCommon (resolve cwd from) (resolve cwd to) in
  Js.join "/" (map (fun _ => "..") up ++ down).

End Posix.

(** ** The generated script [.husky/validate-naming.js]

    The script is the template literal [namingConventionScript] of
    [setupHusky]; the template holds no interpolation, and its escapes only
    protect back-quotes and dollar signs, so the script that runs is the text
    as written. *)

Module ValidateNaming.

(** Lines the script prints.  The texts are fixed apart from the path they
    quote. *)
Inductive Line : Type :=
| ErrComponentPascalCase (filePath : string)
    (* Error: Component <filePath> harus menggunakan PascalCase! *)
| HintPascalCase          (* Contoh yang benar: UserProfile.tsx, ... *)
| ErrFileKebabCase (filePath : string)
    (* Error: File <filePath> harus menggunakan kebab-case! *)
| HintFileKebabCase       (* Contoh yang benar: user-service.ts, ... *)
| ErrFolderKebabCase (folderPath : string)
    (* Error: Folder <folderPath> harus menggunakan kebab-case! *)
| HintFolderKebabCase     (* Contoh yang benar: user-profile/, ... *)
| CommitAborted           (* Commit dibatalkan! Perbaiki naming convention ... *)
| RulesHeader             (* Aturan naming convention: *)
| RuleComponents
| RuleOtherFiles
| RuleFolders
| RuleNextFiles
| NamingValid.            (* Naming convention valid! *)

(** The lines printed for one file or one folder: an error and its hint. *)
Definition isPerFile (l : Line) : bool :=
  match l with
  | ErrComponentPascalCase _ | HintPascalCase
  | ErrFileKebabCase _ | HintFileKebabCase
  | ErrFolderKebabCase _ | HintFolderKebabCase => true
  | _ => false
  end.

(** [const kebabCase = /^[a-z0-9-]+$/] *)
Definition kebabCase : Regex.regex :=
  Regex.Plus (Regex.Class [("a", "z"); ("0", "9"); ("-", "-")]%char).

(** [const pascalCase = /^[A-Z][a-zA-Z0-9]*$/] *)
Definition pascalCase : Regex.regex :=
  Regex.Cat (Regex.Class [("A", "Z")]%char)
    (Regex.Star (Regex.Class [("a", "z"); ("A", "Z"); ("0", "9")]%char)).

Definition isComponentFile (filename : string) : bool :=
  Js.endsWith filename ".tsx" || Js.endsWith filename ".jsx".

Definition specialFiles : list string :=
  ["route"; "layout"; "page"; "loading"; "error"; "not-found"; "default";
   "template"].

(** [filename.split('.')[0]] *)
Definition nameWithoutExt (filename : string) : string :=
  Js.index (Js.split "."%char filename) 0.

(** [validateFileName]: the verdict and the lines sent to [console.error]. *)
Definition validateFileName (filename filePath : string) (isComponent : bool)
  : bool * list Line :=
  let nameWithoutExt := nameWithoutExt filename in
  if Js.arrayIncludes specialFiles nameWithoutExt then (true, [])
  else if isComponent then
    if negb (Regex.test pascalCase nameWithoutExt)
    then (false, [ErrComponentPascalCase filePath; HintPascalCase])
    else (true, [])
  else
    if negb (Regex.test kebabCase nameWithoutExt)
    then (false, [ErrFileKebabCase filePath; HintFileKebabCase])
    else (true, []).

Definition specialFolders : list string :=
  ["api"; "ui"; "app"; "lib"; "components"; "utils"; "actions"; "hooks";
   "validations"; "store"; "types"; "forms"; "layouts"].

Definition validateFolderName (folderName folderPath : string)
  : bool * list Line :=
  if Js.startsWith folderName "_" || Js.startsWith folderName "["
     || Js.startsWith folderName "("
  then (true, [])
  else if Js.arrayIncludes specialFolders folderName then (true, [])
  else if negb (Regex.test kebabCase folderName)
  then (false, [ErrFolderKebabCase folderPath; HintFolderKebabCase])
  else (true, []).

(** The mutable part of the script: the module-level [let hasError = false]
    and what has been written to the standard error stream. *)
Record State : Type := mkState {
  hasError : bool;
  stderr : list Line
}.

(** [if (!validate...(...)) { hasError = true; }] *)
Definition record (verdict : bool * list Line) (st : State) : State :=
  {| hasError := if negb (fst verdict) then true else hasError st;
     stderr := stderr st ++ snd verdict |}.

(** How a run of the script ends. *)
Inductive Termination : Type :=
| ProcessExit (code : nat)   (* [process.exit(code)] *)
| EndOfScript.               (* control reaches the end: exit status 0 *)

Record Run : Type := mkRun {
  termination : Termination;
  errorOutput : list Line;    (* [console.error] *)
  standardOutput : list Line  (* [console.log] *)
}.

(** The skip test at the head of the loop body. *)
Definition skipped (relativePath : string) : bool :=
  Js.includes relativePath "node_modules"
  || Js.includes relativePath ".next"
  || Js.includes relativePath "dist"
  || Js.includes relativePath ".git".

(** *** The naming rules, as predicates

    What the script enforces, said without the printing and without the
    flag: the rule for a file name (the README's table: components
    PascalCase, other files kebab-case, the files Next.js reserves let
    through), the rule for a folder name (kebab-case, with the folders the
    script's comments call Next.js conventions let through), and which paths
    are looked at.  The theorems below tie the loop of the script to them. *)

Definition fileNameRule (filename : string) : bool :=
  let stem := nameWithoutExt filename in
  Js.arrayIncludes specialFiles stem
  || (if isComponentFile filename then Regex.test pascalCase stem
      else Regex.test kebabCase stem).

Definition folderRule (folderName : string) : bool :=
  Js.startsWith folderName "_" || Js.startsWith folderName "["
  || Js.startsWith folderName "(" || Js.arrayIncludes specialFolders folderName
  || Regex.test kebabCase folderName.

(** A path the script looks at: under [src/] and not skipped. *)
Definition validated (relativePath : string) : bool :=
  negb (skipped relativePath) && Js.startsWith relativePath "src/".

(** The last segment of a path. *)
Definition baseName (relativePath : string) : string :=
  last (Js.split Posix.sep relativePath) "".

(** The segments between the leading [src] and the file name. *)
Definition folderSegments (relativePath : string) : list string :=
  removelast (tl (Js.split Posix.sep relativePath)).

(** A validated path whose file name or one of whose folders breaks its
    rule. *)
Definition violates (relativePath : string) : bool :=
  validated relativePath
  && (negb (fileNameRule (baseName relativePath))
      || existsb (fun d => negb (folderRule d)) (folderSegments relativePath)).

Section Script.

(** The script requires [fs] and never calls it: the disk is carried through
    a run untouched. *)
Variable Disk : Type.

(** [path.relative(from, to)] of the Node runtime. *)
Variable path_relative : string -> string -> string.

(** What the process is started with. *)
Record Process : Type := mkProcess {
  argv : list string;   (* [process.argv]: node, the script, the staged files *)
  cwd : string;         (* [process.cwd()] *)
  disk : Disk
}.

(** One turn of [for (let i = 1; i < parts.length - 1; i++)]. *)
Definition folderTurn (parts : list string) (st : State) (i : nat) : State :=
  let folderName := Js.index parts i in
  let folderPath := Js.join "/" (Js.slice0 parts (i + 1)) in
  record (validateFolderName folderName folderPath) st.

(** The callback of [stagedFiles.forEach]. *)
Definition forEachBody (p : Process) (st : State) (file : string) : State :=
  let relativePath := path_relative (cwd p) file in
  if skipped relativePath then st
  else if negb (Js.startsWith relativePath "src/") then st
  else
    let parts := Js.split Posix.sep relativePath in
    let filename := Js.index parts (length parts - 1) in
    let isComponent := isComponentFile filename in
    let st := record (validateFileName filename relativePath isComponent) st in
    fold_left (folderTurn parts) (seq 1 (length parts - 1 - 1)) st.

Definition summary : list Line :=
  [CommitAborted; RulesHeader; RuleComponents; RuleOtherFiles; RuleFolders;
   RuleNextFiles].

(** The whole script. *)
Definition main (p : Process) : Run * Disk :=
  let stagedFiles := skipn 2 (argv p) in
  let st := fold_left (forEachBody p) stagedFiles
              {| hasError := false; stderr := [] |} in
  if hasError st
  then ({| termination := ProcessExit 1;
           errorOutput := stderr st ++ summary;
           standardOutput := [] |}, disk p)
  else ({| termination := EndOfScript;
           errorOutput := stderr st;
           standardOutput := [NamingValid] |}, disk p).

End Script.

(** *** What the proofs keep track of *)

(** A verdict prints lines exactly when it is a refusal. *)
Definition Sound (verdict : bool * list Line) : Prop :=
  (fst verdict = true -> snd verdict = [])
  /\ (fst verdict = false -> snd verdict <> []).

(** The flag is up exactly when something has been printed. *)
Definition Consistent (st : State) : Prop :=
  (hasError st = false -> stderr st = [])
  /\ (hasError st = true -> stderr st <> []).

End ValidateNaming.

(** ** Commander, as far as the code uses it

    [new Command()] and the calls chained on it.  [program.command(name)]
    adds a sub-command and returns it, so the calls chained after it apply to
    the sub-command added last. *)

Module Commander.

Section Commands.

(** What [.action] is given. *)
Variable Action : Type.

Record Command : Type := mkCommand {
  commandName : string;
  commandDescription : string;
  commandArguments : list (string * string);   (* declaration, description *)
  commandAction : option Action
}.

(** The root command. *)
Record Program : Type := mkProgram {
  programName : string;
  programDescription : string;
  programVersion : option string;
  subcommands : list Command
}.

(** [new Command()] *)
Definition create : Program :=
  {| programName := ""; programDescription := ""; programVersion := None;
     subcommands := [] |}.

(** [program.name(n)] *)
Definition name (n : string) (p : Program) : Program :=
  {| programName := n; programDescription := programDescription p;
     programVersion := programVersion p; subcommands := subcommands p |}.

(** [program.description(d)] *)
Definition description (d : string) (p : Program) : Program :=
  {| programName := programName p; programDescription := d;
     programVersion := programVersion p; subcommands := subcommands p |}.

(** [program.version(v)] *)
Definition version (v : string) (p : Program) : Program :=
  {| programName := programName p; programDescription := programDescription p;
     programVersion := Some v; subcommands := subcommands p |}.

(** [program.command(n)] *)
Definition command (n : string) (p : Program) : Program :=
  {| programName := programName p; programDescription := programDescription p;
     programVersion := programVersion p;
     subcommands :=
       (subcommands p
        ++ [{| commandName := n; commandDescription := "";
               commandArguments := []; commandAction := None |}])%list |}.

(** A call chained on the sub-command added last. *)
Definition onNewest (f : Command -> Command) (p : Program) : Program :=
  match rev (subcommands p) with
  | [] => p
  | newest :: older =>
      {| programName := programName p;
         programDescription := programDescription p;
         programVersion := programVersion p;
         subcommands := (rev older ++ [f newest])%list |}
  end.

(** [.description(d)] on a sub-command *)
Definition describe (d : string) : Program -> Program :=
  onNewest (fun c =>
    {| commandName := commandName c; commandDescription := d;
       commandArguments := commandArguments c;
       commandAction := commandAction c |}).

(** [.argument(declaration, description)] *)
Definition argument (declaration text : string) : Program -> Program :=
  onNewest (fun c =>
    {| commandName := commandName c;
       commandDescription := commandDescription c;
       commandArguments := (commandArguments c ++ [(declaration, text)])%list;
       commandAction := commandAction c |}).

(** [.action(f)] *)
Definition action (f : Action) : Program -> Program :=
  onNewest (fun c =>
    {| commandName := commandName c;
       commandDescription := commandDescription c;
       commandArguments := commandArguments c;
       commandAction := Some f |}).

(** An argument declared in square brackets is optional, one in angle
    brackets is required. *)
Definition optionalArgument (declaration : string) : bool :=
  Js.startsWith declaration "[".

(** Commander gives a program that has sub-commands, no action of its own
    and no sub-command called [help] a [help] sub-command of its own. *)
Definition implicitHelp (p : Program) : bool :=
  match subcommands p with
  | [] => false
  | _ :: _ =>
      negb (existsb (fun c => String.eqb (commandName c) "help")
              (subcommands p))
  end.

(** The sub-commands the command line answers to, as the help lists them. *)
Definition exposed (p : Program) : list string :=
  (map commandName (subcommands p)
   ++ (if implicitHelp p then ["help"] else []))%list.

End Commands.

End Commander.

(** ** The [init] command of [src/cli.ts] *)

Module Init.

(** *** Values *)

(** [error.message] of a thrown JavaScript error. *)
Definition Error : Type := string.

Inductive Stdio : Type := inherit | pipe.

(** The options object handed to [execSync]. *)
Record ExecOptions : Type := mkExecOptions {
  stdio : Stdio;
  cwd : string
}.

(** JSON values as JavaScript has them after [JSON.parse]: a number is a
    double; an object is the list of its properties in order. *)
Unset Elimination Schemes.
Inductive json : Type :=
| JNull : json
| JBool : bool -> json
| JNumber : SpecFloat.spec_float -> json
| JString : string -> json
| JArray : list json -> json
| JObject : list (string * json) -> json.
Set Elimination Schemes.

Definition jsobject : Type := list (string * json).

(** [obj[key]] *)
Fixpoint getProperty (obj : jsobject) (key : string) : option json :=
  match obj with
  | [] => None
  | (k, v) :: rest => if String.eqb k key then Some v else getProperty rest key
  end.

(** [obj[key] = value]: an existing property keeps its place. *)
Fixpoint setProperty (obj : jsobject) (key : string) (value : json) : jsobject :=
  match obj with
  | [] => [(key, value)]
  | (k, v) :: rest =>
      if String.eqb k key then (k, value) :: rest
      else (k, v) :: setProperty rest key value
  end.

(** [{ ...base, k1: v1, ..., kn: vn }] *)
Definition extend (base fields : jsobject) : jsobject :=
  fold_left (fun o kv => setProperty o (fst kv) (snd kv)) fields base.

(** The name of the indexed property [n]: its decimal numeral. *)
Definition decimal (n : nat) : string :=
  DecimalString.NilEmpty.string_of_uint (Nat.to_uint n).

(** The indexed properties of an array: [{ "0": x0, "1": x1, ... }]. *)
Definition indexed (items : list json) : jsobject :=
  combine (map decimal (seq 0 (length items))) items.

(** The own enumerable properties that [...value] copies: those of an
    object, the elements of an array by index, the characters of a string by
    index; nothing for [undefined], [null], numbers and booleans. *)
Definition spread (value : option json) : jsobject :=
  match value with
  | Some (JObject fields) => fields
  | Some (JArray items) => indexed items
  | Some (JString s) =>
      indexed (map (fun c => JString (String c EmptyString))
                 (list_ascii_of_string s))
  | _ => []
  end.

(** The template strings written to disk, by the name of the constant that
    holds them in the source; their text plays no part below.
    [namingConventionScript] is the program of module [ValidateNaming]. *)
Inductive Content : Type :=
| emptyText | checkDbSource
| vitestConfig | playwrightConfig | prettierConfig | testSetup
| storeExample | utilsFile | validationExample | authConfig
| preCommit | namingConventionScript | updatedPreCommit
| schema | dbConfig | envExample.

(** Lines of [console.log] and [console.error]. *)
Inductive Message : Type :=
| MsgFolderExists (name : string)   (* Folder <name> sudah ada! *)
| MsgStarting                       (* Memulai scaffolding project... *)
| MsgShadcnManual                   (* shadcn components akan diinstall manual *)
| MsgProjectCreated                 (* Project berhasil dibuat! *)
| MsgNextSteps
| MsgCd (name : string)
| MsgCopyEnv | MsgEditEnv | MsgPrismaGenerate | MsgPrismaMigrate | MsgRunDev
| MsgError (message : Error)        (* Error: <error.message> *)
| MsgTips | MsgTip1 | MsgTip2 | MsgTip3.

Inductive Stream : Type := stdout | stderr.

Inductive SpinnerCall : Type := start | succeed | fail | warn.

(** What a run does to the outside, in order.  Calls that can throw carry
    the error they threw, if any. *)
Inductive Event : Type :=
| EvPrompt (answer : option string)
| EvExistsSync (path : string) (result : bool)
| EvExecSync (command : string) (options : ExecOptions) (error : option Error)
| EvSleep (ms : nat)
| EvChdir (path : string) (error : option Error)
| EvEnsureDir (path : string) (error : option Error)
| EvWriteFile (path : string) (data : Content) (error : option Error)
| EvChmod (path : string) (mode : string) (error : option Error)
| EvReadJSON (path : string) (error : option Error)
| EvWriteJSON (path : string) (data : jsobject) (error : option Error)
| EvConsole (stream : Stream) (line : Message)
| EvSpinner (call : SpinnerCall) (text : string).

(** *** The runtime

    Everything the action calls and that is not in the repository: the
    process, [fs-extra], [child_process], [inquirer] and [path].  [W] is the
    state of the machine (disk, working directory, what the user will
    type). *)
Record Runtime (W : Type) : Type := mkRuntime {
  process_cwd : W -> string;
  (** the lines the user would type at a prompt, in order *)
  user_input : W -> list string;
  (** what the promise of [inquirer.prompt] is rejected with when the input
      ends before an answer is accepted *)
  inquirer_closed : W -> Error;
  fs_existsSync : string -> W -> bool;
  child_execSync : string -> ExecOptions -> W -> option Error * W;
  process_chdir : string -> W -> option Error * W;
  fs_ensureDir : string -> W -> option Error * W;
  fs_writeFile : string -> Content -> W -> option Error * W;
  fs_chmod : string -> string -> W -> option Error * W;
  (** [fs.readJSON]; a file that does not hold a JSON object counts as
      unreadable *)
  fs_readJSON : string -> W -> Error + jsobject;
  fs_writeJSON : string -> jsobject -> W -> option Error * W;
  path_join : string -> string -> string
}.

(** *** Computations

    A computation runs from a machine state and ends by returning, by
    throwing, or in [process.exit]; it yields the new machine state and the
    events it caused. *)
Inductive Result (A : Type) : Type :=
| Returned (a : A)
| Thrown (e : Error)
| Exited (code : nat).

Arguments Returned {A} a.
Arguments Thrown {A} e.
Arguments Exited {A} code.

Section Action.

Variable W : Type.
Variable rt : Runtime W.

Definition M (A : Type) : Type := W -> Result A * W * list Event.

Definition ret {A} (a : A) : M A := fun w => (Returned a, w, []).

Definition bind {A B} (m : M A) (f : A -> M B) : M B :=
  fun w =>
    match m w with
    | (Returned a, w1, t1) =>
        match f a w1 with (r, w2, t2) => (r, w2, (t1 ++ t2)%list) end
    | (Thrown e, w1, t1) => (Thrown e, w1, t1)
    | (Exited c, w1, t1) => (Exited c, w1, t1)
    end.

Notation "x <- c1 ;; c2" := (bind c1 (fun x => c2))
  (at level 61, c1 at next level, right associativity).
Notation "c1 ;; c2" := (bind c1 (fun _ => c2))
  (at level 61, right associativity).

(** [throw e] *)
Definition throw {A} (e : Error) : M A := fun w => (Thrown e, w, []).

(** [process.exit(code)]: nothing after it runs, no handler sees it. *)
Definition process_exit {A} (code : nat) : M A := fun w => (Exited code, w, []).

(** [try { body } catch (error) { handler }] *)
Definition tryCatch {A} (body : M A) (handler : Error -> M A) : M A :=
  fun w =>
    match body w with
    | (Thrown e, w1, t1) =>
        match handler e w1 with (r, w2, t2) => (r, w2, (t1 ++ t2)%list) end
    | other => other
    end.

(** [for (const x of xs) { body }] *)
Fixpoint forEach {A} (xs : list A) (body : A -> M unit) : M unit :=
  match xs with
  | [] => ret tt
  | x :: xs' => body x ;; forEach xs' body
  end.

Definition emit (e : Event) : M unit := fun w => (Returned tt, w, [e]).

(** A call of the runtime that changes the machine and may throw. *)
Definition call (op : W -> option Error * W) (ev : option Error -> Event)
  : M unit :=
  fun w =>
    match op w with
    | (None, w') => (Returned tt, w', [ev None])
    | (Some e, w') => (Thrown e, w', [ev (Some e)])
    end.

Definition cwd_ : M string := fun w => (Returned (process_cwd rt w), w, []).

Definition existsSync (p : string) : M bool :=
  fun w => let r := fs_existsSync rt p w in (Returned r, w, [EvExistsSync p r]).

Definition execSync (command : string) (options : ExecOptions) : M unit :=
  call (child_execSync rt command options) (EvExecSync command options).

Definition chdir (p : string) : M unit :=
  call (process_chdir rt p) (EvChdir p).

Definition ensureDir (p : string) : M unit :=
  call (fs_ensureDir rt p) (EvEnsureDir p).

Definition writeFile (p : string) (data : Content) : M unit :=
  call (fs_writeFile rt p data) (EvWriteFile p data).

Definition chmod (p mode : string) : M unit :=
  call (fs_chmod rt p mode) (EvChmod p mode).

Definition readJSON (p : string) : M jsobject :=
  fun w =>
    match fs_readJSON rt p w with
    | inr obj => (Returned obj, w, [EvReadJSON p None])
    | inl e => (Thrown e, w, [EvReadJSON p (Some e)])
    end.

Definition writeJSON (p : string) (data : jsobject) : M unit :=
  call (fs_writeJSON rt p data) (EvWriteJSON p data).

Definition console_log (line : Message) : M unit := emit (EvConsole stdout line).
Definition console_error (line : Message) : M unit := emit (EvConsole stderr line).
Definition spinner (c : SpinnerCall) (text : string) : M unit :=
  emit (EvSpinner c text).

(** [await new Promise((resolve) => setTimeout(resolve, ms))] *)
Definition sleep (ms : nat) : M unit := emit (EvSleep ms).

Definition join (a b : string) : string := path_join rt a b.

(** *** The prompt *)

(** What a [validate] callback of [inquirer] returns: [true], or the text
    shown before asking again. *)
Inductive Validation : Type :=
| Accept
| Reject (text : string).

Definition accepted (v : Validation) : bool :=
  match v with Accept => true | Reject _ => false end.

(** [/^[a-z0-9-]+$/], as written in the [validate] callback. *)
Definition projectNamePattern : Regex.regex :=
  Regex.Plus (Regex.Class [("a", "z"); ("0", "9"); ("-", "-")]%char).

Definition validate (input : string) : Validation :=
  if String.eqb input "" then Reject "Nama project harus diisi!"
  else if negb (Regex.test projectNamePattern input)
  then Reject "Nama project harus kebab-case (lowercase dengan dash)!"
  else Accept.

(** [inquirer.prompt] with one [input] question: the user is asked again
    until [validate] accepts; the promise rejects when the input ends. *)
Definition prompt (validate : string -> Validation) : M string :=
  fun w =>
    match find (fun input => accepted (validate input)) (user_input rt w) with
    | Some answer => (Returned answer, w, [EvPrompt (Some answer)])
    | None => (Thrown (inquirer_closed rt w), w, [EvPrompt None])
    end.

(** [!name], for the optional argument Commander passes. *)
Definition falsy (name : option string) : bool :=
  match name with
  | None => true
  | Some s => String.eqb s ""
  end.

(** Lines 26-44: [let name = projectName; if (!name) { ... }]. *)
Definition resolveName (projectName : option string) : M string :=
  match projectName with
  | Some name => if falsy projectName then prompt validate else ret name
  | None => prompt validate
  end.

(** *** The helpers of the action *)

Definition folders : list string :=
  ["src/app/api/auth/[...nextauth]"; "src/components/ui";
   "src/components/forms"; "src/components/layouts"; "src/lib/actions";
   "src/lib/api"; "src/lib/utils"; "src/lib/validations"; "src/lib/hooks";
   "src/store"; "src/types"; "prisma"; "public/images"; "public/icons";
   "__tests__/unit"; "__tests__/e2e"].

Definition createProjectStructure (basePath : string) : M unit :=
  forEach folders (fun folder => ensureDir (join basePath folder)) ;;
  writeFile (join basePath "src/components/forms/.gitkeep") emptyText ;;
  writeFile (join basePath "src/components/layouts/.gitkeep") emptyText ;;
  ensureDir (join basePath "src/utils") ;;
  writeFile (join basePath "src/utils/check-db.ts") checkDbSource.

(** The properties assigned to [pkg.scripts] after the spread. *)
Definition scripts : jsobject :=
  [("test", JString "vitest");
   ("checkdb", JString "ts-node src/utils/check-db.ts");
   ("dev", JString "pnpm run checkdb && next dev");
   ("test:ui", JString "vitest --ui");
   ("test:e2e", JString "playwright test");
   ("test:e2e:ui", JString "playwright test --ui");
   ("lint:fix", JString "eslint . --fix");
   ("format", JString "prettier --write .");
   ("prepare", JString "husky")].

Definition createConfigFiles (basePath : string) : M unit :=
  writeFile (join basePath "vitest.config.ts") vitestConfig ;;
  writeFile (join basePath "playwright.config.ts") playwrightConfig ;;
  writeFile (join basePath ".prettierrc") prettierConfig ;;
  writeFile (join basePath "__tests__/setup.ts") testSetup ;;
  ensureDir (join basePath "src/store") ;;
  writeFile (join basePath "src/store/user-store.ts") storeExample ;;
  ensureDir (join basePath "src/lib/utils") ;;
  writeFile (join basePath "src/lib/utils/cn.ts") utilsFile ;;
  ensureDir (join basePath "src/lib/validations") ;;
  writeFile (join basePath "src/lib/validations/auth.ts") validationExample ;;
  ensureDir (join basePath "src/app/api/auth/[...nextauth]") ;;
  writeFile (join basePath "src/app/api/auth/[...nextauth]/route.ts") authConfig ;;
  let pkgPath := join basePath "package.json" in
  pkg <- readJSON pkgPath ;;
  let pkg :=
    setProperty pkg "scripts"
      (JObject (extend (spread (getProperty pkg "scripts")) scripts)) in
  writeJSON pkgPath pkg.

Definition componentsJson : jsobject :=
  [("$schema", JString "https://ui.shadcn.com/schema.json");
   ("style", JString "default");
   ("rsc", JBool true);
   ("tsx", JBool true);
   ("tailwind",
    JObject [("config", JString "tailwind.config.ts");
             ("css", JString "src/app/globals.css");
             ("baseColor", JString "slate");
             ("cssVariables", JBool true);
             ("prefix", JString "")]);
   ("aliases",
    JObject [("components", JString "@/components");
             ("utils", JString "@/lib/utils");
             ("ui", JString "@/components/ui")])].

Definition shadcnCommand : string :=
  "pnpm dlx shadcn@latest add button input label --yes".

Definition setupShadcn (basePath : string) : M unit :=
  writeJSON (join basePath "components.json") componentsJson ;;
  tryCatch
    (execSync shadcnCommand {| stdio := pipe; cwd := basePath |})
    (fun _ => console_log MsgShadcnManual).

Definition lintStaged : jsobject :=
  [("*.{js,jsx,ts,tsx}",
    JArray [JString "eslint --fix"; JString "prettier --write"]);
   ("*.{json,css,md}", JArray [JString "prettier --write"])].

Definition setupHusky (basePath : string) : M unit :=
  writeFile (join basePath ".husky/pre-commit") preCommit ;;
  chmod (join basePath ".husky/pre-commit") "755" ;;
  let pkgPath := join basePath "package.json" in
  pkg <- readJSON pkgPath ;;
  let pkg := setProperty pkg "lint-staged" (JObject lintStaged) in
  writeJSON pkgPath pkg ;;
  writeFile (join basePath ".husky/validate-naming.js") namingConventionScript ;;
  writeFile (join basePath ".husky/pre-commit") updatedPreCommit.

Definition setupPrisma (basePath : string) : M unit :=
  writeFile (join basePath "prisma/schema.prisma") schema ;;
  writeFile (join basePath "src/lib/db.ts") dbConfig ;;
  writeFile (join basePath ".env.example") envExample.

(** *** The action of [init] *)

(** The double-quote character, which the command text below contains. *)
Definition dquote : string := String (ascii_of_nat 34) EmptyString.

Definition createNextAppCommand (name : string) : string :=
  "pnpm create next-app@latest " ++ name
  ++ " --typescript --tailwind --eslint --app --src-dir --import-alias "
  ++ dquote ++ "@/*" ++ dquote ++ " --turbopack --no-git".

Definition authDependencies : list string :=
  ["next-auth@^4.24.5"; "bcryptjs"; "jsonwebtoken"; "clsx"; "tailwind-merge"].

Definition formDependencies : list string :=
  ["react-hook-form"; "zod"; "@hookform/resolvers"].

Definition stateDependencies : list string := ["zustand"].

Definition databaseDependencies : list string := ["@prisma/client@^6.7.0"].

Definition devDependencies : list string :=
  ["prisma@^6.7.0"; "@types/bcryptjs"; "@types/jsonwebtoken"; "vitest";
   "@vitejs/plugin-react"; "@playwright/test"; "husky"; "lint-staged";
   "prettier"].

(** [`pnpm add ${deps.join(" ")}`] *)
Definition pnpmAdd (deps : list string) : string :=
  "pnpm add " ++ Js.join " " deps.

(** [`pnpm add -D ${deps.join(" ")}`] *)
Definition pnpmAddDev (deps : list string) : string :=
  "pnpm add -D " ++ Js.join " " deps.

Definition huskyCommand : string := "pnpm dlx husky@latest init".

Definition prismaCommand : string :=
  "pnpm exec prisma init --datasource-provider sqlserver".

(** Lines 55-71. *)
Definition createNextApp (name : string) : M unit :=
  spinner start "Membuat Next.js app..." ;;
  tryCatch
    (here <- cwd_ ;;
     execSync (createNextAppCommand name) {| stdio := inherit; cwd := here |} ;;
     sleep 1000 ;;
     spinner succeed "Next.js app berhasil dibuat")
    (fun error =>
       spinner fail "Gagal membuat Next.js app" ;;
       throw error).

(** Lines 82-143. *)
Definition installDependencies (targetPath : string) : M unit :=
  spinner start "Menginstall dependencies..." ;;
  tryCatch
    (execSync (pnpmAdd authDependencies)
       {| stdio := inherit; cwd := targetPath |} ;;
     execSync (pnpmAdd formDependencies)
       {| stdio := inherit; cwd := targetPath |} ;;
     execSync (pnpmAdd stateDependencies)
       {| stdio := inherit; cwd := targetPath |} ;;
     execSync (pnpmAdd databaseDependencies)
       {| stdio := inherit; cwd := targetPath |} ;;
     execSync (pnpmAddDev devDependencies)
       {| stdio := inherit; cwd := targetPath |} ;;
     spinner succeed "Dependencies berhasil diinstall")
    (fun error =>
       spinner fail "Gagal menginstall dependencies" ;;
       throw error) ;;
  spinner succeed "Dependencies berhasil diinstall".

(** Lines 157-170. *)
Definition huskyStep (targetPath : string) : M unit :=
  spinner start "Setup Husky..." ;;
  tryCatch
    (execSync huskyCommand {| stdio := pipe; cwd := targetPath |} ;;
     setupHusky targetPath ;;
     spinner succeed "Husky berhasil di-setup")
    (fun _ =>
       spinner warn "Husky setup warning (silahkan setup manual jika diperlukan)").

(** Lines 172-183. *)
Definition prismaStep (targetPath : string) : M unit :=
  spinner start "Inisialisasi Prisma..." ;;
  tryCatch
    (execSync prismaCommand {| stdio := pipe; cwd := targetPath |} ;;
     setupPrisma targetPath ;;
     spinner succeed "Prisma berhasil diinisialisasi")
    (fun _ =>
       spinner warn "Prisma init warning (akan di-setup manual)" ;;
       setupPrisma targetPath).

(** Lines 185-194. *)
Definition printNextSteps (name : string) : M unit :=
  console_log MsgProjectCreated ;;
  console_log MsgNextSteps ;;
  console_log (MsgCd name) ;;
  console_log MsgCopyEnv ;;
  console_log MsgEditEnv ;;
  console_log MsgPrismaGenerate ;;
  console_log MsgPrismaMigrate ;;
  console_log MsgRunDev.

(** Lines 80-194: what runs once the project folder is there. *)
Definition scaffold (name targetPath : string) : M unit :=
  chdir targetPath ;;
  installDependencies targetPath ;;
  spinner start "Membuat struktur folder..." ;;
  createProjectStructure targetPath ;;
  spinner succeed "Struktur folder berhasil dibuat" ;;
  spinner start "Membuat file konfigurasi..." ;;
  createConfigFiles targetPath ;;
  spinner succeed "File konfigurasi berhasil dibuat" ;;
  spinner start "Menginstall shadcn/ui..." ;;
  setupShadcn targetPath ;;
  spinner succeed "shadcn/ui berhasil diinstall" ;;
  huskyStep targetPath ;;
  prismaStep targetPath ;;
  printNextSteps name.

(** The body of the outer [try], lines 26-194. *)
Definition initBody (projectName : option string) : M unit :=
  name <- resolveName projectName ;;
  here <- cwd_ ;;
  let targetPath := join here name in
  found <- existsSync targetPath ;;
  (if found then console_log (MsgFolderExists name) ;; process_exit 1
   else ret tt) ;;
  console_log MsgStarting ;;
  createNextApp name ;;
  found <- existsSync targetPath ;;
  (if negb found
   then throw ("Folder " ++ name
               ++ " tidak ditemukan. Pastikan create-next-app berhasil.")
   else ret tt) ;;
  scaffold name targetPath.

(** The outer [catch], lines 195-206. *)
Definition reportAndExit (error : Error) : M unit :=
  console_error (MsgError error) ;;
  console_log MsgTips ;;
  console_log MsgTip1 ;;
  console_log MsgTip2 ;;
  console_log MsgTip3 ;;
  process_exit 1.

(** The callback given to [.action]. *)
Definition initAction (projectName : option string) : M unit :=
  tryCatch (initBody projectName) reportAndExit.

(** *** The command line *)

(** Lines 11-24: the program and its sub-command, in the order of the
    chained calls. *)
Definition program : Commander.Program (option string -> M unit) :=
  Commander.action initAction
    (Commander.argument "[project-name]" "Nama project"
       (Commander.describe
          "Inisialisasi project Next.js baru dengan FHI tech stack"
          (Commander.command "init"
             (Commander.version "1.0.0"
                (Commander.description
                   "CLI untuk scaffolding Next.js project - Fullerton Health Indonesia"
                   (Commander.name "next-fhi-cli"
                      (Commander.create _))))))).

End Action.

(** *** Reading a run *)

Section Observations.

Variable W : Type.

Definition result {A} (run : Result A * W * list Event) : Result A :=
  fst (fst run).
Definition world {A} (run : Result A * W * list Event) : W :=
  snd (fst run).
Definition trace {A} (run : Result A * W * list Event) : list Event :=
  snd run.

End Observations.

(** The command lines handed to [execSync], in order. *)
Definition commands (t : list Event) : list string :=
  flat_map (fun e => match e with
                     | EvExecSync command _ _ => [command]
                     | _ => []
                     end) t.

(** The five [pnpm add] command lines. *)
Definition installCommands : list string :=
  [pnpmAdd authDependencies; pnpmAdd formDependencies;
   pnpmAdd stateDependencies; pnpmAdd databaseDependencies;
   pnpmAddDev devDependencies].

(** The command lines of the steps whose failure is caught on the spot. *)
Definition bestEffortCommands : list string :=
  [shadcnCommand; huskyCommand; prismaCommand].

(** A command line of [create-next-app] or of one of the installs. *)
Definition isCritical (command : string) : bool :=
  Js.startsWith command "pnpm create next-app@latest "
  || Js.arrayIncludes installCommands command.

(** An event that records a call that threw. *)
Definition failed (e : Event) : bool :=
  match e with
  | EvPrompt None => true
  | EvExecSync _ _ (Some _) | EvChdir _ (Some _) | EvEnsureDir _ (Some _)
  | EvWriteFile _ _ (Some _) | EvChmod _ _ (Some _) | EvReadJSON _ (Some _)
  | EvWriteJSON _ _ (Some _) => true
  | _ => false
  end.

Definition isBestEffort (e : Event) : bool :=
  match e with
  | EvExecSync command _ _ => Js.arrayIncludes bestEffortCommands command
  | _ => false
  end.

(** A failure other than that of a best-effort command. *)
Definition hardFailure (e : Event) : bool := failed e && negb (isBestEffort e).

(** An event that starts no process and changes nothing on disk. *)
Definition harmless (e : Event) : bool :=
  match e with
  | EvPrompt _ | EvExistsSync _ _ | EvConsole _ _ | EvSpinner _ _ => true
  | _ => false
  end.

(** The paths read after the run itself wrote them; [written] holds the paths
    written so far. *)
Fixpoint readBack (written : list string) (t : list Event) : list string :=
  match t with
  | [] => []
  | EvWriteFile p _ None :: t' => readBack (p :: written) t'
  | EvWriteJSON p _ None :: t' => readBack (p :: written) t'
  | EvReadJSON p _ :: t' =>
      if Js.arrayIncludes written p then p :: readBack written t'
      else readBack written t'
  | _ :: t' => readBack written t'
  end.

(** The paths written more than once. *)
Fixpoint rewritten (written : list string) (t : list Event) : list string :=
  match t with
  | [] => []
  | EvWriteFile p _ None :: t' | EvWriteJSON p _ None :: t' =>
      if Js.arrayIncludes written p then p :: rewritten written t'
      else rewritten (p :: written) t'
  | _ :: t' => rewritten written t'
  end.

(** *** Relations between the ending of a run and its trace

    The vocabulary of the proofs below: what a run may be asked to satisfy,
    phase by phase, and the ways the body of the action can go. *)

Section Reasoning.

Variable W : Type.
Variable rt : Runtime W.

Local Open Scope list_scope.

(** The ending of a run, its value forgotten. *)
Definition ended {A} (r : Result A) : Result unit :=
  match r with
  | Returned _ => Returned tt
  | Thrown e => Thrown e
  | Exited c => Exited c
  end.

(** [Sat R m]: every run of [m] ends and leaves a trace that [R] relates. *)
Definition Sat (R : Result unit -> list Event -> Prop) {A} (m : M W A) : Prop :=
  forall w, R (ended (result (m w))) (trace (m w)).

(** A relation that sequencing preserves. *)
Class Compositional (R : Result unit -> list Event -> Prop) : Prop := {
  holds_nil : R (Returned tt) [];
  holds_seq : forall o t1 t2, R (Returned tt) t1 -> R o t2 -> R o (t1 ++ t2)
}.

(** A relation that a handler running after a throw preserves. *)
Class Catching (R : Result unit -> list Event -> Prop) : Prop := {
  holds_catch :
    forall e o t1 t2, R (Thrown e) t1 -> R o t2 -> R o (t1 ++ t2)
}.

(** Every event satisfies [Q]. *)
Definition AlwaysR (Q : Event -> Prop) : Result unit -> list Event -> Prop :=
  fun _ t => Forall Q t.

(** The run does not end in [process.exit]. *)
Definition NoExitR : Result unit -> list Event -> Prop :=
  fun o _ => forall c, o <> Exited c.

(** The run does not exit, and if it throws, a failure other than that of a
    best-effort command is on record. *)
Definition AccountedR : Result unit -> list Event -> Prop :=
  fun o t =>
    match o with
    | Returned _ => True
    | Thrown _ => Exists (fun e => hardFailure e = true) t
    | Exited _ => False
    end.

(** If [create-next-app] or an install is on record as failed, the run has
    thrown the error of that command. *)
Definition CriticalR : Result unit -> list Event -> Prop :=
  fun o t =>
    forall command options e,
      In (EvExecSync command options (Some e)) t ->
      isCritical command = true -> o = Thrown e.


(** An event that starts no process. *)
Definition notExec (e : Event) : Prop :=
  match e with
  | EvExecSync _ _ _ => False
  | _ => True
  end.

(** An event that reads nothing but the file at [p]. *)
Definition readsOnly (p : string) (e : Event) : Prop :=
  match e with
  | EvReadJSON q _ => q = p
  | _ => True
  end.

(** A failure of [command] on record comes with the [warning] on record. *)
Definition WarnedR (command : string) (warning : Event)
  : Result unit -> list Event -> Prop :=
  fun _ t =>
    (exists options e, In (EvExecSync command options (Some e)) t) ->
    In warning t.

(** A run that returns has no failed call on record. *)
Definition CleanR : Result unit -> list Event -> Prop :=
  fun o t => o = Returned tt -> Forall (fun e => failed e = false) t.


Definition huskyWarning : Event :=
  EvSpinner warn "Husky setup warning (silahkan setup manual jika diperlukan)".



(** What the outer [catch] prints. *)
Definition report (e : Error) : list Event :=
  [EvConsole stderr (MsgError e); EvConsole stdout MsgTips;
   EvConsole stdout MsgTip1; EvConsole stdout MsgTip2;
   EvConsole stdout MsgTip3].

(** The events up to and including the second look at the project folder,
    when [create-next-app] has run without error. *)
Definition prelude (name here targetPath : string) (found : bool)
  : list Event :=
  [EvExistsSync targetPath false;
   EvConsole stdout MsgStarting;
   EvSpinner start "Membuat Next.js app...";
   EvExecSync (createNextAppCommand name) {| stdio := inherit; cwd := here |}
     None;
   EvSleep 1000;
   EvSpinner succeed "Next.js app berhasil dibuat";
   EvExistsSync targetPath found].

(** The five ways the body of the outer [try] can go. *)
Inductive BodyCase (projectName : option string) (w : W)
  : Result unit * W * list Event -> Prop :=
| PromptClosed e :
    resolveName rt projectName w = (Thrown e, w, [EvPrompt None]) ->
    BodyCase projectName w (Thrown e, w, [EvPrompt None])
| FolderThere name t0 :
    resolveName rt projectName w = (Returned name, w, t0) ->
    let targetPath := join rt (process_cwd rt w) name in
    fs_existsSync rt targetPath w = true ->
    BodyCase projectName w
      (Exited 1, w,
       t0 ++ [EvExistsSync targetPath true;
              EvConsole stdout (MsgFolderExists name)])
| CreateFailed name t0 e w1 :
    resolveName rt projectName w = (Returned name, w, t0) ->
    let here := process_cwd rt w in
    let targetPath := join rt here name in
    fs_existsSync rt targetPath w = false ->
    child_execSync rt (createNextAppCommand name)
      {| stdio := inherit; cwd := here |} w = (Some e, w1) ->
    BodyCase projectName w
      (Thrown e, w1,
       t0 ++ [EvExistsSync targetPath false;
              EvConsole stdout MsgStarting;
              EvSpinner start "Membuat Next.js app...";
              EvExecSync (createNextAppCommand name)
                {| stdio := inherit; cwd := here |} (Some e);
              EvSpinner fail "Gagal membuat Next.js app"])
| FolderMissing name t0 w1 :
    resolveName rt projectName w = (Returned name, w, t0) ->
    let here := process_cwd rt w in
    let targetPath := join rt here name in
    fs_existsSync rt targetPath w = false ->
    child_execSync rt (createNextAppCommand name)
      {| stdio := inherit; cwd := here |} w = (None, w1) ->
    fs_existsSync rt targetPath w1 = false ->
    BodyCase projectName w
      (Thrown ("Folder " ++ name
               ++ " tidak ditemukan. Pastikan create-next-app berhasil.")%string,
       w1, t0 ++ prelude name here targetPath false)
| Scaffolded name t0 w1 :
    resolveName rt projectName w = (Returned name, w, t0) ->
    let here := process_cwd rt w in
    let targetPath := join rt here name in
    fs_existsSync rt targetPath w = false ->
    child_execSync rt (createNextAppCommand name)
      {| stdio := inherit; cwd := here |} w = (None, w1) ->
    fs_existsSync rt targetPath w1 = true ->
    BodyCase projectName w
      (result (scaffold rt name targetPath w1),
       world (scaffold rt name targetPath w1),
       t0 ++ prelude name here targetPath true
          ++ trace (scaffold rt name targetPath w1)).

End Reasoning.

End Init.

(** ** A small machine to run the programs on

    A concrete runtime: a disk that is a set of paths plus the JSON files'
    values, a working directory, the lines the user will type and the
    commands that are going to fail.  It serves the examples; the general
    statements below hold for every runtime. *)

Module Machine.

Import Init.

Record World : Type := mkWorld {
  entries : list string;                  (* directories and files present *)
  jsonFiles : list (string * jsobject);   (* what the JSON files hold *)
  workdir : string;
  typed : list string;
  failing : list string                   (* command lines that fail *)
}.

Definition present (p : string) (w : World) : bool :=
  existsb (String.eqb p) (entries w).

Definition dirname (p : string) : string :=
  Js.join "/" (removelast (Js.split Posix.sep p)).

(** [p] and the directories above it, the root left out. *)
Definition withParents (p : string) : list string :=
  let segs := Js.split Posix.sep p in
  map (fun k => Js.join "/" (firstn k segs)) (seq 2 (length segs - 1)).

Definition addEntries (ps : list string) (w : World) : World :=
  {| entries := ps ++ entries w; jsonFiles := jsonFiles w;
     workdir := workdir w; typed := typed w; failing := failing w |}.

Definition putJSON (p : string) (obj : jsobject) (w : World) : World :=
  {| entries := p :: entries w; jsonFiles := (p, obj) :: jsonFiles w;
     workdir := workdir w; typed := typed w; failing := failing w |}.

Definition setWorkdir (p : string) (w : World) : World :=
  {| entries := entries w; jsonFiles := jsonFiles w;
     workdir := p; typed := typed w; failing := failing w |}.

Definition noEntry (p : string) : Error := "ENOENT: no such file or directory, " ++ p.

(** What [create-next-app] leaves in [package.json]. *)
Definition freshPackage (name : string) : jsobject :=
  [("name", JString name);
   ("scripts", JObject [("dev", JString "next dev --turbopack");
                        ("build", JString "next build");
                        ("lint", JString "eslint")])].

(** What a command that succeeds does to the disk: [create-next-app] makes
    the project folder and its [package.json], [husky init] makes [.husky];
    the others are taken to change nothing the action looks at. *)
Definition effect (command : string) (options : ExecOptions) (w : World) : World :=
  if Js.startsWith command "pnpm create next-app@latest " then
    let name := Js.index (Js.split " " command) 3 in
    let target := Posix.join (cwd options) name in
    putJSON (Posix.join target "package.json") (freshPackage name)
      (addEntries (withParents target) w)
  else if String.eqb command huskyCommand then
    addEntries [Posix.join (cwd options) ".husky";
                Posix.join (cwd options) ".husky/pre-commit"] w
  else w.

Definition guarded (p : string) (w : World) (w' : World) : option Error * World :=
  if present (dirname p) w then (None, w') else (Some (noEntry p), w).

Definition runtime : Runtime World :=
  {| process_cwd := workdir;
     user_input := typed;
     inquirer_closed := fun _ => "User force closed the prompt with 0 null";
     fs_existsSync := present;
     child_execSync := fun command options w =>
       if existsb (String.eqb command) (failing w)
       then (Some ("Command failed: " ++ command), w)
       else (None, effect command options w);
     process_chdir := fun p w =>
       if present p w then (None, setWorkdir p w) else (Some (noEntry p), w);
     fs_ensureDir := fun p w => (None, addEntries (withParents p) w);
     fs_writeFile := fun p _ w => guarded p w (addEntries [p] w);
     fs_chmod := fun p _ w =>
       if present p w then (None, w) else (Some (noEntry p), w);
     fs_readJSON := fun p w =>
       match find (fun kv => String.eqb (fst kv) p) (jsonFiles w) with
       | Some kv => inr (snd kv)
       | None => inl (noEntry p)
       end;
     fs_writeJSON := fun p obj w => guarded p w (putJSON p obj w);
     path_join := Posix.join |}.



(** A machine with an empty folder [/work] as working directory. *)
Definition fresh (typed failing : list string) : World :=
  {| entries := ["/work"]; jsonFiles := [];
     workdir := "/work"; typed := typed; failing := failing |}.

(** The outcome of [init] on this machine. *)
Definition init (projectName : option string) (w : World)
  : Result unit * World * list Event :=
  initAction runtime projectName w.

(** A run of the validator in a repository checked out at [/repo]. *)
Definition validate (stagedFiles : list string) : ValidateNaming.Run * unit :=
  ValidateNaming.main (Posix.relative "/repo")
    {| ValidateNaming.argv := "node" :: ".husky/validate-naming.js" :: stagedFiles;
       ValidateNaming.cwd := "/repo";
       ValidateNaming.disk := tt |}.

End Machine.

(** ** Words for the statements about names *)

Module NamingViews.

Import ValidateNaming.

(** The classes of characters the two patterns speak of, by character
    code. *)
Definition lowerChar (c : ascii) : Prop := 97 <= nat_of_ascii c <= 122.
Definition upperChar (c : ascii) : Prop := 65 <= nat_of_ascii c <= 90.
Definition digitChar (c : ascii) : Prop := 48 <= nat_of_ascii c <= 57.

Definition kebabChar (c : ascii) : Prop :=
  lowerChar c \/ digitChar c \/ c = "-"%char.

Definition alnumChar (c : ascii) : Prop :=
  lowerChar c \/ upperChar c \/ digitChar c.

(** A string without a dot. *)
Definition noDot (s : string) : Prop :=
  ~ In "."%char (list_ascii_of_string s).

(** The substrings the loop body looks for before anything else. *)
Definition skipMarkers : list string :=
  ["node_modules"; ".next"; "dist"; ".git"].

(** What one turn of the inner [for] prints. *)
Definition folderLines (parts : list string) (i : nat) : list Line :=
  snd (validateFolderName (Js.index parts i)
         (Js.join "/" (Js.slice0 parts (i + 1)))).

(** What the loop body prints for one relative path: the lines for the file
    name, then those for the folders, outermost first. *)
Definition linesOf (relativePath : string) : list Line :=
  if validated relativePath then
    let parts := Js.split Posix.sep relativePath in
    (snd (validateFileName (baseName relativePath) relativePath
            (isComponentFile (baseName relativePath)))
     ++ flat_map (folderLines parts) (seq 1 (length parts - 1 - 1)))%list
  else [].

End NamingViews.

(** ** Words for the statements about [init] *)

Module InitViews.

Import Init.

(** What [printNextSteps] prints. *)
Definition nextSteps (name : string) : list Event :=
  [EvConsole stdout MsgProjectCreated; EvConsole stdout MsgNextSteps;
   EvConsole stdout (MsgCd name); EvConsole stdout MsgCopyEnv;
   EvConsole stdout MsgEditEnv; EvConsole stdout MsgPrismaGenerate;
   EvConsole stdout MsgPrismaMigrate; EvConsole stdout MsgRunDev].

(** The error thrown at line 75 when the project folder is not there after
    [create-next-app]. *)
Definition folderNotFound (name : string) : Error :=
  "Folder " ++ name ++ " tidak ditemukan. Pastikan create-next-app berhasil.".

(** An event other than a prompt. *)
Definition notPrompt (e : Event) : Prop :=
  match e with
  | EvPrompt _ => False
  | _ => True
  end.

(** [l] is the beginning of [full]. *)
Definition prefixOf (l full : list string) : Prop :=
  exists rest, (l ++ rest)%list = full.

(** The commands of a run begin [full], and are [full] if the run
    returns. *)
Definition Began (full : list string) {W A : Type}
  (run : Result A * W * list Event) : Prop :=
  prefixOf (commands (trace run)) full
  /\ (forall a, result run = Returned a -> commands (trace run) = full).

(** A run that returns has [ev] on record. *)
Definition WroteR (ev : Event) : Result unit -> list Event -> Prop :=
  fun o t => o = Returned tt -> In ev t.

(** The files written with [fs.writeFile] outside the Husky step, relative
    to the project folder, with what is written. *)
Definition projectFiles : list (string * Content) :=
  [("src/components/forms/.gitkeep", emptyText);
   ("src/components/layouts/.gitkeep", emptyText);
   ("src/utils/check-db.ts", checkDbSource);
   ("vitest.config.ts", vitestConfig);
   ("playwright.config.ts", playwrightConfig);
   (".prettierrc", prettierConfig);
   ("__tests__/setup.ts", testSetup);
   ("src/store/user-store.ts", storeExample);
   ("src/lib/utils/cn.ts", utilsFile);
   ("src/lib/validations/auth.ts", validationExample);
   ("src/app/api/auth/[...nextauth]/route.ts", authConfig);
   ("prisma/schema.prisma", schema);
   ("src/lib/db.ts", dbConfig);
   (".env.example", envExample)].

(** The files of the Husky step. *)
Definition huskyFiles : list (string * Content) :=
  [(".husky/pre-commit", preCommit);
   (".husky/validate-naming.js", namingConventionScript);
   (".husky/pre-commit", updatedPreCommit)].

(** The folders made with [fs.ensureDir]. *)
Definition projectFolders : list string := (folders ++ ["src/utils"])%list.

(** Every file the action writes, relative to the project folder. *)
Definition writtenFiles : list string :=
  (map fst projectFiles ++ map fst huskyFiles
   ++ ["package.json"; "components.json"])%list.

(** Every path the action hands to [fs-extra], relative to the project
    folder. *)
Definition projectPaths : list string :=
  (projectFolders ++ writtenFiles)%list.

(** A relative path that could lead out of the folder it is joined to: an
    absolute path, or one with a [..] segment. *)
Definition climbs (rel : string) : bool :=
  Js.startsWith rel "/" || Js.arrayIncludes (Js.split Posix.sep rel) "..".

(** An event that stays where it should: a process started in the starting
    directory ([create-next-app]) or in the project folder (all others, with
    the [stdio] of its kind), a path that is the project folder or one of
    [projectPaths] joined to it. *)
Definition confined (join : string -> string -> string)
  (here targetPath name : string) (e : Event) : Prop :=
  match e with
  | EvExecSync command options _ =>
      (command = createNextAppCommand name
       /\ options = {| stdio := inherit; cwd := here |})
      \/ (In command installCommands
          /\ options = {| stdio := inherit; cwd := targetPath |})
      \/ (In command bestEffortCommands
          /\ options = {| stdio := pipe; cwd := targetPath |})
  | EvChdir p _ | EvExistsSync p _ => p = targetPath
  | EvEnsureDir p _ | EvWriteFile p _ _ | EvChmod p _ _ | EvReadJSON p _
  | EvWriteJSON p _ _ =>
      exists rel, In rel projectPaths /\ p = join targetPath rel
  | _ => True
  end.

End InitViews.

(** * Properties *)

(** ** Strings *)

Module JsFacts.

Lemma endsWith_spec (s p : string) :
  Js.endsWith s p = true <-> exists stem, s = stem ++ p.
Proof.
  induction s as [|a s IH]; cbn [Js.endsWith].
  - destruct (String.eqb_spec "" p) as [E|E].
    + split; [intros _; exists ""; now subst|reflexivity].
    + split; [discriminate|].
      intros [stem H]. destruct stem; simpl in H; [now subst|discriminate].
  - destruct (String.eqb_spec (String a s) p) as [E|E].
    + split; [intros _; exists ""; now subst|reflexivity].
    + rewrite IH. split.
      * intros [stem ->]. now exists (String a stem).
      * intros [stem H]. destruct stem as [|b stem]; simpl in H.
        { now subst. }
        { injection H as _ H. now exists stem. }
Qed.

Lemma startsWith_dot (s : string) :
  Js.startsWith s "." = true -> exists rest, s = String "."%char rest.
Proof.
  destruct s as [|a s]; cbn [Js.startsWith]; [discriminate|].
  destruct (Ascii.eqb_spec a "."%char) as [->|]; [|discriminate].
  intros _. now exists s.
Qed.

(** [arr[arr.length - 1]] is the last element. *)
Lemma index_last (arr : list string) :
  Js.index arr (length arr - 1) = last arr "".
Proof.
  unfold Js.index. induction arr as [|x arr IH]; [reflexivity|].
  destruct arr as [|y arr]; [reflexivity|].
  replace (length (x :: y :: arr) - 1) with (S (length (y :: arr) - 1))
    by (simpl; lia).
  exact IH.
Qed.

Lemma map_nth_seq (arr : list string) (n : nat) :
  n <= length arr -> map (fun i => nth i arr "") (seq 0 n) = firstn n arr.
Proof.
  revert n. induction arr as [|x arr IH]; intros [|n] Hn; simpl in *;
    try reflexivity; try lia.
  f_equal. rewrite <- seq_shift, map_map. apply IH. lia.
Qed.

(** The indices [1 .. length - 2] run over the array without its two ends. *)
Lemma inner_indices (arr : list string) :
  map (Js.index arr) (seq 1 (length arr - 1 - 1)) = removelast (tl arr).
Proof.
  destruct arr as [|x arr]; [reflexivity|].
  rewrite <- seq_shift, map_map. unfold Js.index. cbn [tl nth].
  replace (length (x :: arr) - 1 - 1) with (length arr - 1) by (simpl; lia).
  rewrite map_nth_seq by lia.
  rewrite removelast_firstn_len. f_equal. lia.
Qed.

Lemma existsb_map {A B} (f : B -> bool) (g : A -> B) (l : list A) :
  existsb f (map g l) = existsb (fun x => f (g x)) l.
Proof. induction l; simpl; congruence. Qed.

End JsFacts.

(** ** Regular expressions *)

Module RegexFacts.

Import Regex.

Lemma match_Void (s : list ascii) : matchList Void s = false.
Proof. induction s; simpl; auto. Qed.

Lemma match_Cat_Void (r : regex) (s : list ascii) :
  matchList (Cat Void r) s = false.
Proof. induction s; simpl; auto. Qed.

Lemma match_Alt (a b : regex) (s : list ascii) :
  matchList (Alt a b) s = matchList a s || matchList b s.
Proof. revert a b. induction s; intros; simpl; auto. Qed.

Lemma match_Cat_Eps (r : regex) (s : list ascii) :
  matchList (Cat Eps r) s = matchList r s.
Proof.
  destruct s as [|c s]; simpl; [reflexivity|].
  now rewrite match_Alt, match_Cat_Void.
Qed.

(** [[cl]*] matches the strings made of characters of the class. *)
Lemma match_Star_Class (cl : charClass) (s : list ascii) :
  matchList (Star (Class cl)) s = forallb (inClass cl) s.
Proof.
  induction s as [|c s IH]; simpl; [reflexivity|].
  destruct (inClass cl c); simpl.
  - now rewrite match_Cat_Eps.
  - apply match_Cat_Void.
Qed.

(** [[c1][c2]*] matches a character of the first class followed by
    characters of the second. *)
Lemma match_Class_Star (c1 c2 : charClass) (s : list ascii) :
  matchList (Cat (Class c1) (Star (Class c2))) s =
  match s with
  | [] => false
  | c :: s' => inClass c1 c && forallb (inClass c2) s'
  end.
Proof.
  destruct s as [|c s]; simpl; [reflexivity|].
  destruct (inClass c1 c); simpl.
  - now rewrite match_Cat_Eps, match_Star_Class.
  - apply match_Cat_Void.
Qed.

End RegexFacts.

(** ** Character classes, by character code *)

Module ClassFacts.

Import Regex NamingViews.

Lemma inClass_ranges (cl : charClass) (c : ascii) :
  inClass cl c = true <->
  Exists (fun r => nat_of_ascii (fst r) <= nat_of_ascii c
                   /\ nat_of_ascii c <= nat_of_ascii (snd r)) cl.
Proof.
  unfold inClass. rewrite existsb_exists, Exists_exists.
  split; intros [r [Hin H]]; exists r; split; auto.
  - apply andb_true_iff in H. now rewrite !Nat.leb_le in H.
  - apply andb_true_iff. now rewrite !Nat.leb_le.
Qed.

Lemma code_dash (c : ascii) : nat_of_ascii c = 45 <-> c = "-"%char.
Proof.
  split; [|now intros ->].
  intros H. rewrite <- (ascii_nat_embedding c), H. reflexivity.
Qed.

Lemma kebabClass_spec (c : ascii) :
  inClass [("a", "z"); ("0", "9"); ("-", "-")]%char c = true <->
  kebabChar c.
Proof.
  rewrite inClass_ranges. unfold kebabChar, lowerChar, digitChar.
  rewrite <- code_dash.
  repeat rewrite Exists_cons. rewrite Exists_nil.
  change (nat_of_ascii (fst ("a", "z")%char)) with 97.
  change (nat_of_ascii (snd ("a", "z")%char)) with 122.
  change (nat_of_ascii (fst ("0", "9")%char)) with 48.
  change (nat_of_ascii (snd ("0", "9")%char)) with 57.
  change (nat_of_ascii (fst ("-", "-")%char)) with 45.
  change (nat_of_ascii (snd ("-", "-")%char)) with 45.
  lia.
Qed.

Lemma upperClass_spec (c : ascii) :
  inClass [("A", "Z")]%char c = true <-> upperChar c.
Proof.
  rewrite inClass_ranges. unfold upperChar.
  repeat rewrite Exists_cons. rewrite Exists_nil.
  change (nat_of_ascii (fst ("A", "Z")%char)) with 65.
  change (nat_of_ascii (snd ("A", "Z")%char)) with 90.
  lia.
Qed.

Lemma alnumClass_spec (c : ascii) :
  inClass [("a", "z"); ("A", "Z"); ("0", "9")]%char c = true <->
  alnumChar c.
Proof.
  rewrite inClass_ranges. unfold alnumChar, lowerChar, upperChar, digitChar.
  repeat rewrite Exists_cons. rewrite Exists_nil.
  change (nat_of_ascii (fst ("a", "z")%char)) with 97.
  change (nat_of_ascii (snd ("a", "z")%char)) with 122.
  change (nat_of_ascii (fst ("A", "Z")%char)) with 65.
  change (nat_of_ascii (snd ("A", "Z")%char)) with 90.
  change (nat_of_ascii (fst ("0", "9")%char)) with 48.
  change (nat_of_ascii (snd ("0", "9")%char)) with 57.
  lia.
Qed.

Lemma forallb_class (cl : charClass) (P : ascii -> Prop) (s : list ascii) :
  (forall c, inClass cl c = true <-> P c) ->
  forallb (inClass cl) s = true <-> Forall P s.
Proof.
  intros H. rewrite forallb_forall, Forall_forall.
  split; intros Hs c Hc; apply H; auto.
Qed.

End ClassFacts.

(** ** The naming validator *)

Module ValidateNamingProofs.

Import ValidateNaming.

Lemma arrayIncludes_In (arr : list string) (x : string) :
  Js.arrayIncludes arr x = true <-> In x arr.
Proof.
  unfold Js.arrayIncludes. rewrite existsb_exists. split.
  - intros [y [Hy E]]. apply String.eqb_eq in E. now subst.
  - intros H. exists x. split; [assumption|apply String.eqb_refl].
Qed.

(** Every name of the allow-list is itself kebab-case. *)
Lemma specialFiles_kebabCase (stem : string) :
  Js.arrayIncludes specialFiles stem = true ->
  Regex.test kebabCase stem = true.
Proof.
  rewrite arrayIncludes_In. unfold specialFiles. simpl.
  intros H. repeat (destruct H as [<-|H]; [reflexivity|]). contradiction.
Qed.

(** The verdict of [validateFileName], whatever it prints. *)
Lemma validateFileName_verdict (filename filePath : string) (isComponent : bool) :
  fst (validateFileName filename filePath isComponent) =
  Js.arrayIncludes specialFiles (nameWithoutExt filename)
  || (if isComponent then Regex.test pascalCase (nameWithoutExt filename)
      else Regex.test kebabCase (nameWithoutExt filename)).
Proof.
  unfold validateFileName.
  destruct (Js.arrayIncludes specialFiles (nameWithoutExt filename));
    [reflexivity|].
  destruct isComponent.
  - now destruct (Regex.test pascalCase (nameWithoutExt filename)).
  - now destruct (Regex.test kebabCase (nameWithoutExt filename)).
Qed.

Lemma validateFolderName_verdict (folderName folderPath : string) :
  fst (validateFolderName folderName folderPath) = folderRule folderName.
Proof.
  unfold validateFolderName, folderRule.
  destruct (Js.startsWith folderName "_" || Js.startsWith folderName "["
            || Js.startsWith folderName "("); [reflexivity|].
  destruct (Js.arrayIncludes specialFolders folderName); [reflexivity|].
  now destruct (Regex.test kebabCase folderName).
Qed.

Lemma validateFileName_Sound (filename filePath : string) (isComponent : bool) :
  Sound (validateFileName filename filePath isComponent).
Proof.
  unfold Sound, validateFileName.
  destruct (Js.arrayIncludes specialFiles (nameWithoutExt filename));
    [split; [reflexivity|discriminate]|].
  destruct isComponent;
    [destruct (Regex.test pascalCase (nameWithoutExt filename))
    |destruct (Regex.test kebabCase (nameWithoutExt filename))];
    simpl; split; intros; try reflexivity; discriminate.
Qed.

Lemma validateFolderName_Sound (folderName folderPath : string) :
  Sound (validateFolderName folderName folderPath).
Proof.
  unfold Sound, validateFolderName.
  destruct (Js.startsWith folderName "_" || Js.startsWith folderName "["
            || Js.startsWith folderName "(");
    [split; [reflexivity|discriminate]|].
  destruct (Js.arrayIncludes specialFolders folderName);
    [split; [reflexivity|discriminate]|].
  destruct (Regex.test kebabCase folderName);
    simpl; split; intros; try reflexivity; discriminate.
Qed.

Lemma record_spec (verdict : bool * list Line) (st : State) :
  Sound verdict -> Consistent st ->
  Consistent (record verdict st)
  /\ hasError (record verdict st) = hasError st || negb (fst verdict).
Proof.
  intros [Hok Hko] [Hclean Hdirty]. unfold Consistent, record. simpl.
  destruct verdict as [[|] lines]; simpl in *.
  - rewrite (Hok eq_refl), app_nil_r, orb_false_r. tauto.
  - rewrite orb_true_r. split; [split; [discriminate|]|reflexivity].
    intros _ E. apply app_eq_nil in E. destruct E as [_ E].
    now apply Hko.
Qed.

Lemma record_keeps (verdict : bool * list Line) (st : State) (l : Line) :
  In l (stderr st) -> In l (stderr (record verdict st)).
Proof. intros H. unfold record. simpl. apply in_or_app. now left. Qed.

Lemma folders_spec (parts : list string) (indices : list nat) (st : State) :
  Consistent st ->
  Consistent (fold_left (folderTurn parts) indices st)
  /\ hasError (fold_left (folderTurn parts) indices st) =
     hasError st
     || existsb (fun i => negb (folderRule (Js.index parts i))) indices.
Proof.
  revert st. induction indices as [|i indices IH]; intros st Hst;
    cbn [fold_left existsb].
  - now rewrite orb_false_r.
  - unfold folderTurn at 2 4.
    destruct (record_spec (st := st)
                (validateFolderName_Sound (Js.index parts i)
                   (Js.join "/" (Js.slice0 parts (i + 1)))) Hst) as [Hc He].
    destruct (IH _ Hc) as [Hc' He']. split; [exact Hc'|].
    rewrite He', He.
    now rewrite validateFolderName_verdict, orb_assoc.
Qed.

Lemma record_perFile (verdict : bool * list Line) (st : State) :
  forallb isPerFile (snd verdict) = true ->
  forallb isPerFile (stderr st) = true ->
  forallb isPerFile (stderr (record verdict st)) = true.
Proof.
  intros Hv Hst. unfold record. cbn [stderr].
  rewrite forallb_app. now rewrite Hst, Hv.
Qed.

Lemma validateFileName_perFile (filename filePath : string)
  (isComponent : bool) :
  forallb isPerFile (snd (validateFileName filename filePath isComponent))
  = true.
Proof.
  unfold validateFileName.
  destruct (Js.arrayIncludes specialFiles _); [reflexivity|].
  destruct isComponent;
    [destruct (Regex.test pascalCase _)|destruct (Regex.test kebabCase _)];
    reflexivity.
Qed.

Lemma validateFolderName_perFile (folderName folderPath : string) :
  forallb isPerFile (snd (validateFolderName folderName folderPath)) = true.
Proof.
  unfold validateFolderName.
  destruct (Js.startsWith folderName "_" || Js.startsWith folderName "["
            || Js.startsWith folderName "("); [reflexivity|].
  destruct (Js.arrayIncludes specialFolders folderName); [reflexivity|].
  now destruct (Regex.test kebabCase folderName).
Qed.

Lemma folders_perFile (parts : list string) (indices : list nat) (st : State) :
  forallb isPerFile (stderr st) = true ->
  forallb isPerFile (stderr (fold_left (folderTurn parts) indices st)) = true.
Proof.
  revert st. induction indices as [|i indices IH]; intros st H; simpl;
    [assumption|].
  apply IH. unfold folderTurn.
  apply record_perFile; [apply validateFolderName_perFile|assumption].
Qed.

Lemma folders_keep (parts : list string) (indices : list nat) (st : State)
  (l : Line) :
  In l (stderr st) -> In l (stderr (fold_left (folderTurn parts) indices st)).
Proof.
  revert st. induction indices as [|i indices IH]; intros st H; simpl;
    [assumption|].
  apply IH. now apply record_keeps.
Qed.

Section Script.

Variable Disk : Type.
Variable path_relative : string -> string -> string.

Local Abbreviation forEachBody := (forEachBody path_relative).
Local Abbreviation main := (main path_relative).

(** One turn of the loop raises the flag exactly for a violating path. *)
Lemma forEachBody_spec (p : Process Disk) (st : State) (file : string) :
  Consistent st ->
  Consistent (forEachBody p st file)
  /\ hasError (forEachBody p st file) =
     hasError st || violates (path_relative (cwd p) file).
Proof.
  intros Hst. unfold ValidateNaming.forEachBody, violates, validated.
  destruct (skipped (path_relative (cwd p) file)); cbn [negb andb];
    [now rewrite orb_false_r|].
  destruct (Js.startsWith (path_relative (cwd p) file) "src/");
    cbn [negb andb]; [|now rewrite orb_false_r].
  set (parts := Js.split Posix.sep (path_relative (cwd p) file)).
  set (v := validateFileName _ _ _).
  destruct (record_spec (verdict := v) (st := st)) as [Hc He];
    [apply validateFileName_Sound|assumption|].
  destruct (folders_spec parts (seq 1 (length parts - 1 - 1)) Hc) as [Hc' He'].
  split; [exact Hc'|].
  rewrite He', He. unfold v. rewrite validateFileName_verdict.
  rewrite <- orb_assoc. f_equal.
  unfold folderSegments, baseName, fileNameRule. fold parts.
  rewrite <- JsFacts.inner_indices, JsFacts.existsb_map, JsFacts.index_last.
  reflexivity.
Qed.

Lemma forEachBody_keeps (p : Process Disk) (st : State) (file : string)
  (l : Line) :
  In l (stderr st) -> In l (stderr (forEachBody p st file)).
Proof.
  intros H. unfold ValidateNaming.forEachBody.
  destruct (skipped _); [assumption|].
  destruct (Js.startsWith _ "src/"); simpl; [|assumption].
  now apply folders_keep, record_keeps.
Qed.

Lemma loop_spec (p : Process Disk) (files : list string) (st : State) :
  Consistent st ->
  Consistent (fold_left (forEachBody p) files st)
  /\ hasError (fold_left (forEachBody p) files st) =
     hasError st
     || existsb (fun file => violates (path_relative (cwd p) file)) files.
Proof.
  revert st. induction files as [|file files IH]; intros st Hst; simpl.
  - now rewrite orb_false_r.
  - destruct (forEachBody_spec p file Hst) as [Hc He].
    destruct (IH _ Hc) as [Hc' He']. split; [exact Hc'|].
    now rewrite He', He, orb_assoc.
Qed.

Lemma loop_keeps (p : Process Disk) (files : list string) (st : State)
  (l : Line) :
  In l (stderr st) -> In l (stderr (fold_left (forEachBody p) files st)).
Proof.
  revert st. induction files as [|file files IH]; intros st H; simpl;
    [assumption|].
  now apply IH, forEachBody_keeps.
Qed.

(** What one file adds stays in the output of the whole loop. *)
Lemma loop_reports (p : Process Disk) (files : list string) (st : State)
  (file : string) (l : Line) :
  In file files ->
  (forall st', In l (stderr (forEachBody p st' file))) ->
  In l (stderr (fold_left (forEachBody p) files st)).
Proof.
  revert st. induction files as [|f files IH]; intros st Hin Hl;
    [contradiction|].
  simpl. destruct Hin as [->|Hin].
  - apply loop_keeps, Hl.
  - now apply IH.
Qed.

Lemma forEachBody_perFile (p : Process Disk) (st : State) (file : string) :
  forallb isPerFile (stderr st) = true ->
  forallb isPerFile (stderr (forEachBody p st file)) = true.
Proof.
  intros H. unfold ValidateNaming.forEachBody.
  destruct (skipped _); [assumption|].
  destruct (Js.startsWith _ "src/"); cbn [negb]; [|assumption].
  cbv zeta. apply folders_perFile.
  apply record_perFile; [apply validateFileName_perFile|assumption].
Qed.

(** The loop prints nothing but per-file lines. *)
Lemma loop_perFile (p : Process Disk) (files : list string) (st : State) :
  forallb isPerFile (stderr st) = true ->
  forallb isPerFile (stderr (fold_left (forEachBody p) files st)) = true.
Proof.
  revert st. induction files as [|file files IH]; intros st H; simpl;
    [assumption|].
  now apply IH, forEachBody_perFile.
Qed.

(** One turn of the loop looks at the relative path and at nothing else. *)
Lemma forEachBody_path (p1 p2 : Process Disk) (st : State)
  (file1 file2 : string) :
  path_relative (cwd p1) file1 = path_relative (cwd p2) file2 ->
  forEachBody p1 st file1 = forEachBody p2 st file2.
Proof.
  intros H. unfold ValidateNaming.forEachBody. now rewrite H.
Qed.

Lemma loop_paths (p1 p2 : Process Disk) (files1 files2 : list string)
  (st : State) :
  map (path_relative (cwd p1)) files1 = map (path_relative (cwd p2)) files2 ->
  fold_left (forEachBody p1) files1 st = fold_left (forEachBody p2) files2 st.
Proof.
  revert files2 st.
  induction files1 as [|f1 files1 IH]; intros [|f2 files2] st H;
    try discriminate H; [reflexivity|].
  simpl in H. injection H as Hhead Htail. simpl.
  rewrite (@forEachBody_path p1 p2 st f1 f2 Hhead). now apply IH.
Qed.

Lemma existsb_same_elements {A} (f : A -> bool) (l1 l2 : list A) :
  (forall x, In x l1 <-> In x l2) -> existsb f l1 = existsb f l2.
Proof.
  intros H.
  destruct (existsb f l1) eqn:E1, (existsb f l2) eqn:E2; try reflexivity.
  - apply existsb_exists in E1. destruct E1 as [x [Hin Hx]].
    apply H in Hin. rewrite <- E2. symmetry. apply existsb_exists. eauto.
  - apply existsb_exists in E2. destruct E2 as [x [Hin Hx]].
    apply H in Hin. rewrite <- E1. apply existsb_exists. eauto.
Qed.

Lemma start_Consistent : Consistent {| hasError := false; stderr := [] |}.
Proof. split; [reflexivity|discriminate]. Qed.

(** The loop of the script, from its initial state. *)
Lemma stagedFiles_spec (p : Process Disk) :
  let st := fold_left (forEachBody p) (skipn 2 (argv p))
              {| hasError := false; stderr := [] |} in
  Consistent st
  /\ hasError st =
     existsb (fun file => violates (path_relative (cwd p) file))
       (skipn 2 (argv p)).
Proof.
  destruct (loop_spec p (skipn 2 (argv p)) start_Consistent) as [Hc He].
  split; [exact Hc|exact He].
Qed.

(** C3.  The script ends in one of two ways.  If some staged path is
    validated and its file name or one of its folders breaks its rule, the
    script prints error lines and hints for the offending paths and nothing
    else, then the six lines of the summary, and ends in [process.exit(1)],
    printing nothing on the standard output.  Otherwise it runs to its end,
    prints only the success line, and nothing on the error stream.  The disk
    is left as found. *)
Theorem two_outcomes (p : Process Disk) :
  let run := fst (main p) in
  let anyViolation :=
    existsb (fun file => violates (path_relative (cwd p) file))
      (skipn 2 (argv p)) in
  snd (main p) = disk p
  /\ ((anyViolation = true
       /\ termination run = ProcessExit 1
       /\ (exists perFile,
              perFile <> []
              /\ forallb isPerFile perFile = true
              /\ errorOutput run =
                 (perFile ++ [CommitAborted; RulesHeader; RuleComponents;
                              RuleOtherFiles; RuleFolders; RuleNextFiles])%list)
       /\ standardOutput run = [])
      \/ (anyViolation = false
          /\ termination run = EndOfScript
          /\ errorOutput run = []
          /\ standardOutput run = [NamingValid])).
Proof.
  destruct (stagedFiles_spec p) as [[Hclean Hdirty] He].
  pose proof (@loop_perFile p (skipn 2 (argv p))
                {| hasError := false; stderr := [] |} eq_refl) as Hlines.
  cbv zeta in *. unfold ValidateNaming.main. cbv zeta. rewrite <- He.
  destruct (hasError (fold_left (ValidateNaming.forEachBody path_relative p)
                        (skipn 2 (argv p)) _)) eqn:Hflag;
    cbn [fst snd termination errorOutput standardOutput].
  - split; [reflexivity|]. left. repeat split.
    eexists. split; [apply Hdirty; reflexivity|].
    split; [exact Hlines|reflexivity].
  - split; [reflexivity|]. right. repeat split. now apply Hclean.
Qed.

(** C8.  The outcome of a run is a function of the staged paths taken
    relative to the working directory, and of nothing else.  Two runs whose
    staged files have the same relative paths, in the same order, end the
    same way with the same output, whatever else differs between them: the
    first two arguments, the form in which the paths were given, what the
    disks hold.  Pass or fail depends on the set of relative paths alone,
    not on their order or number.  Neither run changes its disk. *)
Theorem runs_agree (p1 p2 : Process Disk) :
  let paths p := map (path_relative (cwd p)) (skipn 2 (argv p)) in
  (paths p1 = paths p2 -> fst (main p1) = fst (main p2))
  /\ ((forall relativePath,
          In relativePath (paths p1) <-> In relativePath (paths p2)) ->
      termination (fst (main p1)) = termination (fst (main p2))
      /\ standardOutput (fst (main p1)) = standardOutput (fst (main p2)))
  /\ snd (main p1) = disk p1 /\ snd (main p2) = disk p2.
Proof.
  cbv zeta. split; [|split].
  - intros Hpaths. unfold ValidateNaming.main. cbv zeta.
    rewrite (@loop_paths p1 p2 _ _ _ Hpaths).
    now destruct (hasError _).
  - intros Hset.
    destruct (stagedFiles_spec p1) as [_ He1].
    destruct (stagedFiles_spec p2) as [_ He2].
    cbv zeta in He1, He2.
    rewrite <- (JsFacts.existsb_map violates) in He1, He2.
    rewrite (existsb_same_elements violates _ _ Hset) in He1.
    unfold ValidateNaming.main. cbv zeta. rewrite He1, He2.
    now destruct (existsb violates _).
  - unfold ValidateNaming.main. cbv zeta.
    split; now destruct (hasError _).
Qed.

(** C10, amended.  A staged path under [src/] whose last segment begins
    with a dot has the empty string before its first dot; the empty string is
    not in the allow-list and matches neither pattern.  If the path is not
    skipped, the script prints an error line naming it and ends in
    [process.exit(1)]; if it holds one of the skipped substrings, the loop
    passes over it without a word. *)
Theorem dot_file_reported (p : Process Disk) (file : string) :
  let relativePath := path_relative (cwd p) file in
  In file (skipn 2 (argv p)) ->
  Js.startsWith relativePath "src/" = true ->
  Js.startsWith (baseName relativePath) "." = true ->
  nameWithoutExt (baseName relativePath) = ""
  /\ Js.arrayIncludes specialFiles "" = false
  /\ Regex.test kebabCase "" = false
  /\ Regex.test pascalCase "" = false
  /\ (skipped relativePath = false ->
      termination (fst (main p)) = ProcessExit 1
      /\ (In (ErrFileKebabCase relativePath) (errorOutput (fst (main p)))
          \/ In (ErrComponentPascalCase relativePath)
               (errorOutput (fst (main p)))))
  /\ (skipped relativePath = true ->
      forall st, forEachBody p st file = st).
Proof.
  intros relativePath Hin Hsrc Hdot.
  assert (Hstem : nameWithoutExt (baseName relativePath) = "").
  { destruct (JsFacts.startsWith_dot _ Hdot) as [rest ->]. reflexivity. }
  repeat (split; [first [exact Hstem | reflexivity]|]).
  split.
  - intros Hskip.
    assert (Hv : violates relativePath = true).
    { unfold violates, validated, fileNameRule.
      rewrite Hskip, Hsrc, Hstem. simpl.
      now destruct (isComponentFile (baseName relativePath)). }
    destruct (stagedFiles_spec p) as [_ He]. cbv zeta in He.
    assert (Hany : existsb (fun f => violates (path_relative (cwd p) f))
                     (skipn 2 (argv p)) = true).
    { apply existsb_exists. now exists file. }
    rewrite Hany in He.
    assert (Hline : forall st,
               In (if isComponentFile (baseName relativePath)
                   then ErrComponentPascalCase relativePath
                   else ErrFileKebabCase relativePath)
                 (stderr (forEachBody p st file))).
    { intros st. unfold ValidateNaming.forEachBody. fold relativePath.
      rewrite Hskip, Hsrc. simpl.
      apply folders_keep. rewrite JsFacts.index_last.
      fold (baseName relativePath).
      unfold record, validateFileName. rewrite Hstem. simpl.
      apply in_or_app. right.
      destruct (isComponentFile (baseName relativePath)); simpl; auto. }
    pose proof (@loop_reports p (skipn 2 (argv p))
                  {| hasError := false; stderr := [] |} file _ Hin Hline)
      as Hrep.
    unfold ValidateNaming.main. cbv zeta. rewrite He. simpl.
    split; [reflexivity|].
    destruct (isComponentFile (baseName relativePath));
      [right|left]; apply in_or_app; now left.
  - intros Hskip st. unfold ValidateNaming.forEachBody. fold relativePath.
    now rewrite Hskip.
Qed.

End Script.

(** C1, amended.  A file name is a component exactly when it ends in
    [.tsx] or [.jsx].  With the classification the script gives it, a
    component passes exactly when the part before its first dot is in the
    allow-list or matches the PascalCase pattern, and any other file exactly
    when that part matches the kebab-case pattern. *)
Theorem file_name_verdict (filename filePath : string) :
  let stem := nameWithoutExt filename in
  (isComponentFile filename = true <->
   exists base, filename = base ++ ".tsx" \/ filename = base ++ ".jsx")
  /\ fst (validateFileName filename filePath (isComponentFile filename)) =
     (if isComponentFile filename
      then Js.arrayIncludes specialFiles stem || Regex.test pascalCase stem
      else Regex.test kebabCase stem).
Proof.
  intros stem. split.
  - unfold isComponentFile. rewrite orb_true_iff, !JsFacts.endsWith_spec.
    split.
    + intros [[base H]|[base H]]; exists base; auto.
    + intros [base [H|H]]; [left|right]; now exists base.
  - rewrite validateFileName_verdict. fold stem.
    destruct (isComponentFile filename); [reflexivity|].
    destruct (Js.arrayIncludes specialFiles stem) eqn:E; [|reflexivity].
    symmetry. now apply specialFiles_kebabCase.
Qed.

(** C1 as stated fails: [page.tsx] is a component and passes, yet [page]
    does not match the PascalCase pattern. *)
Lemma page_tsx_passes :
  isComponentFile "page.tsx" = true
  /\ ~ (fst (validateFileName "page.tsx" "src/app/page.tsx"
              (isComponentFile "page.tsx")) = true
        <-> Regex.test pascalCase (nameWithoutExt "page.tsx") = true).
Proof.
  split; [reflexivity|].
  intros [H _]. specialize (H eq_refl). vm_compute in H. discriminate.
Qed.

(** C2.  A file whose name before the first dot is in the allow-list is
    accepted and nothing is printed, whether or not it is taken for a
    component. *)
Theorem special_names_accepted (filename filePath : string) (isComponent : bool) :
  In (nameWithoutExt filename) specialFiles ->
  validateFileName filename filePath isComponent = (true, []).
Proof.
  intros H. apply arrayIncludes_In in H.
  unfold validateFileName. now rewrite H.
Qed.

Lemma special_names_accepted_witness :
  In (nameWithoutExt "not-found.tsx") specialFiles
  /\ validateFileName "not-found.tsx" "src/app/not-found.tsx" true = (true, []).
Proof.
  split; [vm_compute; auto 10|].
  apply (@special_names_accepted "not-found.tsx" "src/app/not-found.tsx" true).
  vm_compute; auto 10.
Defined.

Lemma runs_agree_witness :
  let p1 := {| argv := ["node"; "validate-naming.js"; "src/lib/authService.ts"];
               cwd := "/repo"; disk := ["/repo/src/lib/authService.ts"] |} in
  let p2 := {| argv := ["/usr/bin/node"; "/repo/.husky/validate-naming.js";
                        "/repo/src/app/../lib/authService.ts"];
               cwd := "/repo"; disk := @nil string |} in
  fst (main (Posix.relative "/repo") p1) = fst (main (Posix.relative "/repo") p2)
  /\ snd (main (Posix.relative "/repo") p1) = disk p1
  /\ snd (main (Posix.relative "/repo") p2) = disk p2.
Proof.
  intros p1 p2.
  destruct (@runs_agree (list string) (Posix.relative "/repo") p1 p2)
    as (Hsame & _ & Hd1 & Hd2).
  split; [apply Hsame; reflexivity|]. split; assumption.
Defined.

Lemma dot_file_reported_witness :
  let p := {| argv := ["node"; "validate-naming.js"; "src/lib/.env"];
              cwd := "/repo"; disk := tt |} in
  termination (fst (main (Posix.relative "/repo") p)) = ProcessExit 1
  /\ In (ErrFileKebabCase "src/lib/.env")
       (errorOutput (fst (main (Posix.relative "/repo") p))).
Proof.
  intros p.
  destruct (@dot_file_reported unit (Posix.relative "/repo") p "src/lib/.env")
    as (_ & _ & _ & _ & H & _);
    [vm_compute; auto | reflexivity | reflexivity |].
  destruct (H eq_refl) as [Hexit Hline]. split; [exact Hexit|].
  vm_compute. auto.
Defined.

(** The two error messages the README shows, and a commit that passes. *)
Example readme_errors :
  fst (Machine.validate ["src/components/userProfile.tsx";
                         "src/lib/authService.ts"]) =
  {| termination := ProcessExit 1;
     errorOutput :=
       [ErrComponentPascalCase "src/components/userProfile.tsx";
        HintPascalCase;
        ErrFileKebabCase "src/lib/authService.ts";
        HintFileKebabCase;
        CommitAborted; RulesHeader; RuleComponents; RuleOtherFiles;
        RuleFolders; RuleNextFiles];
     standardOutput := [] |}.
Proof. vm_compute. reflexivity. Qed.

Example clean_commit :
  fst (Machine.validate ["src/components/UserProfile.tsx";
                         "src/lib/user-service.ts";
                         "src/app/(auth)/login/page.tsx";
                         "package.json"]) =
  {| termination := EndOfScript;
     errorOutput := [];
     standardOutput := [NamingValid] |}.
Proof. vm_compute. reflexivity. Qed.

(** A folder name is checked too, and reported with the path up to it. *)
Example folder_error :
  errorOutput (fst (Machine.validate ["src/lib/UserAdmin/page.tsx"])) =
  ([ErrFolderKebabCase "src/lib/UserAdmin"; HintFolderKebabCase] ++ summary)%list.
Proof. vm_compute. reflexivity. Qed.

(** C10 as stated fails: [.gitkeep] lies under [src/] and begins with a dot,
    yet the path holds [.git], so the script skips it and ends well. *)
Lemma gitkeep_not_reported :
  let file := "src/components/forms/.gitkeep" in
  let run := fst (Machine.validate [file]) in
  Js.startsWith (Posix.relative "/repo" "/repo" file) "src/" = true
  /\ Js.startsWith (baseName (Posix.relative "/repo" "/repo" file)) "." = true
  /\ termination run = EndOfScript
  /\ errorOutput run = []
  /\ standardOutput run = [NamingValid].
Proof. vm_compute. repeat split. Qed.

End ValidateNamingProofs.

(** ** The [init] action *)

Module InitProofs.

Import Init.
Local Open Scope list_scope.

Section Logic.

Variable W : Type.
Variable rt : Runtime W.

Local Abbreviation M := (M W).

Lemma bind_eq {A B} (m : M A) (f : A -> M B) (w : W) :
  bind m f w =
  match m w with
  | (Returned a, w1, t1) =>
      (result (f a w1), world (f a w1), (t1 ++ trace (f a w1))%list)
  | (Thrown e, w1, t1) => (Thrown e, w1, t1)
  | (Exited c, w1, t1) => (Exited c, w1, t1)
  end.
Proof.
  unfold bind. destruct (m w) as [[[a|e|c] w1] t1]; try reflexivity.
  now destruct (f a w1) as [[r w2] t2].
Qed.

Lemma tryCatch_eq {A} (body : M A) (handler : Error -> M A) (w : W) :
  tryCatch body handler w =
  match body w with
  | (Thrown e, w1, t1) =>
      (result (handler e w1), world (handler e w1),
       (t1 ++ trace (handler e w1))%list)
  | other => other
  end.
Proof.
  unfold tryCatch. destruct (body w) as [[[a|e|c] w1] t1]; try reflexivity.
  now destruct (handler e w1) as [[r w2] t2].
Qed.

(** A run that returns is the run of its two halves, both returning. *)
Lemma bind_Returned {A B} (m : M A) (f : A -> M B) (w : W) (b : B) :
  result (bind m f w) = Returned b ->
  exists a,
    result (m w) = Returned a
    /\ result (f a (world (m w))) = Returned b
    /\ trace (bind m f w) = (trace (m w) ++ trace (f a (world (m w))))%list
    /\ world (bind m f w) = world (f a (world (m w))).
Proof.
  rewrite bind_eq. destruct (m w) as [[[a|e|c] w1] t1]; simpl;
    try discriminate.
  intros H. exists a. auto.
Qed.

Section Rules.

Variable R : Result unit -> list Event -> Prop.

Lemma Sat_ret `{Compositional R} {A} (a : A) : Sat R (ret (W := W) a).
Proof. intros w. apply holds_nil. Qed.

Lemma Sat_bind `{Compositional R} {A B} (m : M A) (f : A -> M B) :
  Sat R m -> (forall a, Sat R (f a)) -> Sat R (bind m f).
Proof.
  intros Hm Hf w. rewrite bind_eq. specialize (Hm w).
  destruct (m w) as [[[a|e|c] w1] t1]; simpl in *; auto.
  apply holds_seq; [assumption|apply Hf].
Qed.

Lemma Sat_forEach `{Compositional R} {A} (xs : list A) (body : A -> M unit) :
  (forall x, Sat R (body x)) -> Sat R (forEach xs body).
Proof.
  intros Hbody. induction xs as [|x xs IH]; simpl.
  - apply Sat_ret.
  - apply Sat_bind; auto.
Qed.

Lemma Sat_tryCatch `{Catching R} {A} (body : M A) (handler : Error -> M A) :
  Sat R body -> (forall e, Sat R (handler e)) -> Sat R (tryCatch body handler).
Proof.
  intros Hbody Hh w. rewrite tryCatch_eq. specialize (Hbody w).
  destruct (body w) as [[[a|e|c] w1] t1]; simpl in *; auto.
  eapply holds_catch; [eassumption|apply Hh].
Qed.

(** [catch (error) { spinner...; throw error; }]: the error goes on. *)
Lemma Sat_rethrow {A} (body : M A) (ev : Event) :
  Sat R body ->
  (forall e t, R (Thrown e) t -> R (Thrown e) (t ++ [ev])) ->
  Sat R (tryCatch body (fun error => bind (emit ev) (fun _ => throw error))).
Proof.
  intros Hbody Hev w. rewrite tryCatch_eq. specialize (Hbody w).
  destruct (body w) as [[[a|e|c] w1] t1]; simpl in *; auto.
Qed.

Lemma Sat_emit (ev : Event) : R (Returned tt) [ev] -> Sat R (emit (W := W) ev).
Proof. intros H w. exact H. Qed.

Lemma Sat_call (op : W -> option Error * W) (ev : option Error -> Event) :
  R (Returned tt) [ev None] ->
  (forall e, R (Thrown e) [ev (Some e)]) ->
  Sat R (call op ev).
Proof.
  intros Hok Hko w. unfold call. destruct (op w) as [[e|] w']; simpl; auto.
Qed.

Lemma Sat_readJSON (p : string) :
  R (Returned tt) [EvReadJSON p None] ->
  (forall e, R (Thrown e) [EvReadJSON p (Some e)]) ->
  Sat R (readJSON rt p).
Proof.
  intros Hok Hko w. unfold readJSON.
  destruct (fs_readJSON rt p w) as [e|obj]; simpl; auto.
Qed.

Lemma Sat_existsSync (p : string) :
  (forall found, R (Returned tt) [EvExistsSync p found]) ->
  Sat R (existsSync rt p).
Proof. intros H w. apply H. Qed.

Lemma Sat_cwd `{Compositional R} : Sat R (cwd_ rt).
Proof. intros w. apply holds_nil. Qed.

Lemma Sat_prompt (v : string -> Validation) :
  (forall answer, R (Returned tt) [EvPrompt (Some answer)]) ->
  (forall e, R (Thrown e) [EvPrompt None]) ->
  Sat R (prompt rt v).
Proof.
  intros Hok Hko w. unfold prompt.
  destruct (find _ (user_input rt w)); simpl; auto.
Qed.

Lemma Sat_throw {A} (e : Error) : R (Thrown e) [] -> Sat R (throw (W := W) (A := A) e).
Proof. intros H w. exact H. Qed.

Lemma Sat_exit {A} (c : nat) :
  R (Exited c) [] -> Sat R (process_exit (W := W) (A := A) c).
Proof. intros H w. exact H. Qed.

End Rules.

End Logic.

#[local] Instance AlwaysR_Compositional (Q : Event -> Prop) :
  Compositional (AlwaysR Q).
Proof.
  split; unfold AlwaysR.
  - constructor.
  - intros _ t1 t2 H1 H2. apply Forall_app. now split.
Qed.

#[local] Instance AlwaysR_Catching (Q : Event -> Prop) : Catching (AlwaysR Q).
Proof.
  split; unfold AlwaysR. intros _ _ t1 t2 H1 H2. apply Forall_app. now split.
Qed.

#[local] Instance NoExitR_Compositional : Compositional NoExitR.
Proof. split; unfold NoExitR; auto; discriminate. Qed.

#[local] Instance NoExitR_Catching : Catching NoExitR.
Proof. split; unfold NoExitR; auto. Qed.

#[local] Instance AccountedR_Compositional : Compositional AccountedR.
Proof.
  split; unfold AccountedR; [exact I|].
  intros [[]|e|c] t1 t2 _ H; auto.
  apply Exists_app. now right.
Qed.

#[local] Instance AccountedR_Catching : Catching AccountedR.
Proof.
  split; unfold AccountedR.
  intros e [[]|e'|c] t1 t2 H1 H2; auto.
  apply Exists_app. now left.
Qed.

#[local] Instance CriticalR_Compositional : Compositional CriticalR.
Proof.
  split; unfold CriticalR.
  - intros command options e [].
  - intros o t1 t2 H1 H2 command options e Hin Hc.
    apply in_app_or in Hin. destruct Hin as [Hin|Hin].
    + specialize (H1 _ _ _ Hin Hc). discriminate.
    + eauto.
Qed.


Lemma notExec_commands (t : list Event) : Forall notExec t -> commands t = [].
Proof.
  induction 1 as [|e t He _ IH]; [reflexivity|].
  unfold commands in *. simpl. rewrite IH. now destruct e.
Qed.

Lemma commands_app (t1 t2 : list Event) :
  commands (t1 ++ t2) = commands t1 ++ commands t2.
Proof. unfold commands. apply flat_map_app. Qed.

(** *** Walking through a program *)

Ltac unfold_calls :=
  unfold spinner, console_log, console_error, sleep, execSync, chdir,
    ensureDir, writeFile, chmod, writeJSON in *.

(** [extra] holds the rules for the handlers and phases at hand, [side] proves
    what the rules ask of single events. *)
Ltac sat_core extra side :=
  unfold_calls;
  repeat (cbv beta zeta;
          first
            [ apply Sat_rethrow; [|intros ? ?; side]
            | extra
            | apply Sat_ret; typeclasses eauto
            | apply Sat_cwd; typeclasses eauto
            | apply Sat_bind; [typeclasses eauto| |intros ?]
            | apply Sat_forEach; [typeclasses eauto|intros ?]
            | apply Sat_emit; side
            | apply Sat_call; [side|intros ?; side]
            | apply Sat_readJSON; [side|intros ?; side]
            | apply Sat_existsSync; intros ?; side
            | apply Sat_prompt; [intros ?; side|intros ?; side]
            | apply Sat_throw; side
            | apply Sat_exit; side ]).

Ltac sat_with side :=
  sat_core ltac:(apply Sat_tryCatch; [typeclasses eauto| |intros ?]) side.

Ltac always_side :=
  unfold AlwaysR; intros;
  repeat first [ apply Forall_app; split | assumption
               | constructor; simpl; auto ].

Ltac noexit_side := unfold NoExitR; intros; discriminate.

Ltac accounted_side :=
  unfold AccountedR; intros;
  first [ exact I
        | apply Exists_app; left; assumption
        | apply Exists_cons_hd; reflexivity ].

#[local] Instance WarnedR_Compositional (command : string) (warning : Event) :
  Compositional (WarnedR command warning).
Proof.
  split; unfold WarnedR.
  - intros [o [e []]].
  - intros _ t1 t2 H1 H2 [o [e Hin]]. apply in_or_app.
    apply in_app_or in Hin. destruct Hin; [left|right]; eauto.
Qed.

#[local] Instance WarnedR_Catching (command : string) (warning : Event) :
  Catching (WarnedR command warning).
Proof.
  split; unfold WarnedR.
  intros _ _ t1 t2 H1 H2 [o [e Hin]]. apply in_or_app.
  apply in_app_or in Hin. destruct Hin; [left|right]; eauto.
Qed.



Ltac found := solve [repeat first [left; reflexivity | right]].

(** What [find] returns is the first element that passes. *)
Lemma find_first {A} (f : A -> bool) (l : list A) (x : A) :
  find f l = Some x ->
  f x = true
  /\ exists before after,
       l = before ++ x :: after /\ Forall (fun y => f y = false) before.
Proof.
  induction l as [|y l IH]; simpl; [discriminate|].
  destruct (f y) eqn:E.
  - intros H. injection H as <-. split; [assumption|].
    exists [], l. split; [reflexivity|constructor].
  - intros H. destruct (IH H) as [Hx [before [after [-> Hb]]]].
    split; [assumption|]. exists (y :: before), after.
    split; [reflexivity|now constructor].
Qed.

Lemma find_nothing {A} (f : A -> bool) (l : list A) :
  find f l = None -> Forall (fun y => f y = false) l.
Proof.
  intros H. apply Forall_forall. intros y Hy. exact (find_none f l H y Hy).
Qed.

(** The pattern of the prompt, by character code. *)
Lemma projectNamePattern_spec (input : string) :
  Regex.test projectNamePattern input = true <->
  input <> ""%string
  /\ Forall NamingViews.kebabChar (list_ascii_of_string input).
Proof.
  unfold Regex.test, projectNamePattern, Regex.Plus.
  rewrite RegexFacts.match_Class_Star.
  destruct input as [|c input]; cbn [list_ascii_of_string].
  - split; [discriminate|intros [H _]; now destruct H].
  - rewrite andb_true_iff, ClassFacts.kebabClass_spec,
      (@ClassFacts.forallb_class _ _ _ ClassFacts.kebabClass_spec).
    split.
    + intros [Hc Hs]. split; [discriminate|now constructor].
    + intros [_ H]. inversion H; subst. now split.
Qed.

Lemma validate_spec (input : string) :
  accepted (validate input) = true <->
  input <> ""%string
  /\ Forall NamingViews.kebabChar (list_ascii_of_string input).
Proof.
  rewrite <- projectNamePattern_spec. unfold validate.
  destruct (String.eqb_spec input ""%string) as [->|Hne]; cbn [accepted].
  - split; [discriminate|intros H; vm_compute in H; discriminate H].
  - destruct (Regex.test projectNamePattern input); cbn [negb accepted];
      split; auto.
Qed.

Section Phases.

Variable W : Type.
Variable rt : Runtime W.

(** [try { body } catch { handler }] where only the handler's failures
    count. *)
Lemma Sat_soft {A} (body : M W A) (handler : Error -> M W A) :
  Sat NoExitR body -> (forall e, Sat AccountedR (handler e)) ->
  Sat AccountedR (tryCatch body handler).
Proof.
  intros Hbody Hh w. rewrite tryCatch_eq. specialize (Hbody w).
  destruct (body w) as [[[a|e|c] w1] t1]; simpl in *.
  - exact I.
  - specialize (Hh e w1). unfold AccountedR in *.
    destruct (result (handler e w1)); simpl in *; auto.
    apply Exists_app. now right.
  - now apply (Hbody c).
Qed.


(** Whatever [scaffold] reads is the [package.json] of the project. *)
Lemma scaffold_reads (name targetPath : string) :
  Sat (AlwaysR (readsOnly (join rt targetPath "package.json")))
    (scaffold rt name targetPath).
Proof.
  unfold scaffold, installDependencies, createProjectStructure,
    createConfigFiles, setupShadcn, huskyStep, setupHusky, prismaStep,
    setupPrisma, printNextSteps.
  sat_with always_side.
Qed.

(** [scaffold] never exits; when it throws, something other than a
    best-effort command has failed. *)
Lemma scaffold_accounted (name targetPath : string) :
  Sat AccountedR (scaffold rt name targetPath).
Proof.
  unfold scaffold, installDependencies, createProjectStructure,
    createConfigFiles, setupShadcn, huskyStep, setupHusky, prismaStep,
    setupPrisma, printNextSteps.
  sat_core ltac:(apply Sat_soft; [solve [sat_with noexit_side]|intros ?])
           accounted_side.
Qed.


(** *** The action, case by case *)

(** Resolving the name changes nothing; it returns the argument, or asks,
    and throws only when the prompt is closed. *)
Lemma resolveName_run (projectName : option string) (w : W) :
  world (resolveName rt projectName w) = w
  /\ ((exists name,
          result (resolveName rt projectName w) = Returned name
          /\ (trace (resolveName rt projectName w) = []
              \/ trace (resolveName rt projectName w) = [EvPrompt (Some name)]))
      \/ (exists e,
             result (resolveName rt projectName w) = Thrown e
             /\ trace (resolveName rt projectName w) = [EvPrompt None])).
Proof.
  unfold resolveName, prompt, ret.
  destruct projectName as [name|]; [destruct (falsy (Some name))|];
    try destruct (find _ (user_input rt w)); simpl;
    unfold result, world, trace; simpl; (split; [reflexivity|]); eauto 8.
Qed.

Lemma initBody_cases (projectName : option string) (w : W) :
  BodyCase rt projectName w (initBody rt projectName w).
Proof.
  destruct (resolveName_run projectName w) as [Hw Hr].
  destruct (resolveName rt projectName w) as [[r0 w0] t0] eqn:E0.
  unfold world, result, trace in Hw, Hr. simpl in Hw, Hr. subst w0.
  destruct Hr as [[name [-> Ht0]]|[e [-> ->]]].
  2:{ unfold initBody, bind. rewrite E0. now apply PromptClosed. }
  pose proof (@FolderThere W rt projectName w name t0 E0) as Hthere.
  pose proof (@CreateFailed W rt projectName w name t0) as Hfailed.
  pose proof (@FolderMissing W rt projectName w name t0) as Hmissing.
  pose proof (@Scaffolded W rt projectName w name t0) as Hscaffolded.
  cbv zeta in Hthere, Hfailed, Hmissing, Hscaffolded.
  cbv [initBody bind cwd_ existsSync ret console_log emit createNextApp
       spinner tryCatch execSync call sleep throw process_exit].
  rewrite E0.
  destruct (fs_existsSync rt (join rt (process_cwd rt w) name) w) eqn:Ex1.
  { now apply Hthere. }
  destruct (child_execSync rt (createNextAppCommand name)
              {| stdio := inherit; cwd := process_cwd rt w |} w)
    as [[e|] w1] eqn:Ex.
  { now apply Hfailed. }
  destruct (fs_existsSync rt (join rt (process_cwd rt w) name) w1) eqn:Ex2.
  - specialize (Hscaffolded w1 E0 eq_refl eq_refl Ex2).
    unfold result, world, trace in Hscaffolded. cbn [negb].
    destruct (scaffold rt name (join rt (process_cwd rt w) name) w1)
      as [[r w2] t2].
    exact Hscaffolded.
  - now apply Hmissing.
Qed.

(** The action is its body, except that a throw becomes a report and
    [process.exit(1)]. *)
Lemma initAction_eq (projectName : option string) (w : W) :
  initAction rt projectName w =
  match initBody rt projectName w with
  | (Thrown e, w1, t1) => (Exited 1, w1, t1 ++ report e)
  | other => other
  end.
Proof.
  cbv [initAction tryCatch reportAndExit bind console_error console_log emit
       process_exit].
  now destruct (initBody rt projectName w) as [[[a|e|c] w1] t1].
Qed.

(** *** The commands of each phase *)

Lemma silent {A} (m : M W A) (w : W) :
  Sat (AlwaysR notExec) m -> commands (trace (m w)) = [].
Proof. intros H. apply notExec_commands, H. Qed.

Lemma chdir_commands (p : string) (w : W) :
  commands (trace (chdir rt p w)) = [].
Proof. apply silent. sat_with always_side. Qed.

Lemma spinner_commands (c : SpinnerCall) (text : string) (w : W) :
  commands (trace (spinner c text w)) = [].
Proof. reflexivity. Qed.

Lemma createProjectStructure_commands (basePath : string) (w : W) :
  commands (trace (createProjectStructure rt basePath w)) = [].
Proof. apply silent. unfold createProjectStructure. sat_with always_side. Qed.

Lemma createConfigFiles_commands (basePath : string) (w : W) :
  commands (trace (createConfigFiles rt basePath w)) = [].
Proof. apply silent. unfold createConfigFiles. sat_with always_side. Qed.

Lemma setupHusky_commands (basePath : string) (w : W) :
  commands (trace (setupHusky rt basePath w)) = [].
Proof. apply silent. unfold setupHusky. sat_with always_side. Qed.

Lemma setupPrisma_commands (basePath : string) (w : W) :
  commands (trace (setupPrisma rt basePath w)) = [].
Proof. apply silent. unfold setupPrisma. sat_with always_side. Qed.

Lemma printNextSteps_commands (name : string) (w : W) :
  commands (trace (printNextSteps name w)) = [].
Proof. reflexivity. Qed.

Lemma setupHusky_NoExit (basePath : string) :
  Sat NoExitR (setupHusky rt basePath).
Proof. unfold setupHusky. sat_with noexit_side. Qed.

Lemma setupPrisma_NoExit (basePath : string) :
  Sat NoExitR (setupPrisma rt basePath).
Proof. unfold setupPrisma. sat_with noexit_side. Qed.

Ltac destruct_exec :=
  match goal with
  | |- context [child_execSync rt ?c ?o ?w] =>
      destruct (child_execSync rt c o w) as [[?|] ?]
  end.

(** The five installs run in order when the phase returns. *)
Lemma installDependencies_commands (targetPath : string) (w : W) (a : unit) :
  result (installDependencies rt targetPath w) = Returned a ->
  commands (trace (installDependencies rt targetPath w)) = installCommands.
Proof.
  cbv [installDependencies bind tryCatch execSync call spinner emit throw].
  repeat destruct_exec; cbn [result trace fst snd]; intros H;
    first [discriminate H | reflexivity].
Qed.

Lemma setupShadcn_commands (basePath : string) (w : W) (a : unit) :
  result (setupShadcn rt basePath w) = Returned a ->
  commands (trace (setupShadcn rt basePath w)) = [shadcnCommand].
Proof.
  cbv [setupShadcn bind tryCatch execSync writeJSON call console_log emit].
  destruct (fs_writeJSON rt _ _ w) as [[?|] ?];
    [intros H; discriminate H|].
  destruct_exec; reflexivity.
Qed.

(** The Husky step always returns, having run its one command. *)
Lemma huskyStep_run (targetPath : string) (w : W) :
  result (huskyStep rt targetPath w) = Returned tt
  /\ commands (trace (huskyStep rt targetPath w)) = [huskyCommand].
Proof.
  pose proof (setupHusky_commands targetPath) as Hsilent.
  pose proof (setupHusky_NoExit targetPath) as Hnoexit.
  cbv [huskyStep bind tryCatch execSync call spinner emit].
  destruct_exec; [split; reflexivity|].
  specialize (Hsilent w0). specialize (Hnoexit w0).
  unfold NoExitR in Hnoexit.
  destruct (setupHusky rt targetPath w0) as [[[[]|e|c] w1] t1];
    cbn [result trace fst snd ended] in *.
  - split; [reflexivity|]. rewrite !commands_app, Hsilent. reflexivity.
  - split; [reflexivity|]. rewrite !commands_app, Hsilent. reflexivity.
  - now destruct (Hnoexit c).
Qed.

(** The Prisma step runs its one command, however it ends. *)
Lemma prismaStep_commands (targetPath : string) (w : W) :
  commands (trace (prismaStep rt targetPath w)) = [prismaCommand].
Proof.
  pose proof (setupPrisma_commands targetPath) as Hsilent.
  cbv [prismaStep bind tryCatch execSync call spinner emit].
  destruct_exec;
    repeat match goal with
           | |- context [setupPrisma rt targetPath ?w'] =>
               let H := fresh "H" in
               pose proof (Hsilent w') as H;
               destruct (setupPrisma rt targetPath w') as [[[[]|?|?] ?] ?];
               cbn [result trace fst snd] in H |- *
           end;
    rewrite ?commands_app;
    repeat match goal with H : commands _ = [] |- _ => rewrite H; clear H end;
    reflexivity.
Qed.

Ltac returned H :=
  lazymatch type of H with
  | result (bind _ _ _) = Returned _ =>
      let a := fresh "a" in
      let Hm := fresh "Hm" in
      let Ht := fresh "Ht" in
      apply bind_Returned in H; destruct H as (a & Hm & H & Ht & _);
      rewrite Ht; clear Ht; cbv beta in H |- *; returned H
  | _ => idtac
  end.

(** When [scaffold] returns it has run the five installs, then shadcn, then
    husky, then prisma. *)
Lemma scaffold_commands (name targetPath : string) (w : W) (a : unit) :
  result (scaffold rt name targetPath w) = Returned a ->
  commands (trace (scaffold rt name targetPath w)) =
  installCommands ++ bestEffortCommands.
Proof.
  unfold scaffold. intros H. returned H.
  rewrite !commands_app.
  rewrite chdir_commands, !spinner_commands, createProjectStructure_commands,
    createConfigFiles_commands, printNextSteps_commands, prismaStep_commands.
  rewrite (proj2 (huskyStep_run _ _)).
  erewrite installDependencies_commands by eassumption.
  erewrite setupShadcn_commands by eassumption.
  reflexivity.
Qed.

Lemma resolveName_commands (projectName : option string) (w : W) :
  commands (trace (resolveName rt projectName w)) = [].
Proof.
  destruct (resolveName_run projectName w) as [_ [[n [_ [->| ->]]]|[e [_ ->]]]];
    reflexivity.
Qed.

Lemma resolveName_harmless (projectName : option string) (w : W) :
  Forall (fun e => harmless e = true) (trace (resolveName rt projectName w)).
Proof.
  destruct (resolveName_run projectName w) as [_ [[n [_ [->| ->]]]|[e [_ ->]]]];
    repeat constructor.
Qed.

(** C9.  If the folder the project would go to is already there, the action
    prints a line and ends in [process.exit(1)]: the machine is left as it
    was, and the trace holds no process, no write, no change of directory. *)
Theorem existing_folder_exits (projectName : option string) (w : W)
  (name : string) :
  result (resolveName rt projectName w) = Returned name ->
  fs_existsSync rt (path_join rt (process_cwd rt w) name) w = true ->
  result (initAction rt projectName w) = Exited 1
  /\ world (initAction rt projectName w) = w
  /\ Forall (fun e => harmless e = true) (trace (initAction rt projectName w))
  /\ In (EvConsole stdout (MsgFolderExists name))
       (trace (initAction rt projectName w)).
Proof.
  intros Hname Hthere.
  pose proof (resolveName_harmless projectName w) as Hquiet.
  rewrite initAction_eq.
  destruct (initBody_cases projectName w) as
    [e E0|n t0 E0 tp Ex1|n t0 e w1 E0 here tp Ex1 Ex|n t0 w1 E0 here tp Ex1 Ex Ex2
    |n t0 w1 E0 here tp Ex1 Ex Ex2];
    rewrite E0 in Hname, Hquiet; unfold result, trace in Hname, Hquiet;
    simpl in Hname, Hquiet; try discriminate Hname;
    injection Hname as ->; unfold join in *; subst tp; try subst here;
    try congruence.
  cbn [result world trace fst snd]. repeat split.
  - apply Forall_app. split; [assumption|repeat constructor].
  - apply in_or_app. right. simpl. auto.
Qed.

(** C6.  A run of the action that returns has started exactly nine
    processes, one after the other, with these command lines:
    [create-next-app] for the chosen name, the five installs (auth, form,
    state, database, development), shadcn, husky, prisma.  The eight command
    lines after the first do not depend on the name. *)
Theorem commands_in_order (projectName : option string) (w : W) :
  result (initAction rt projectName w) = Returned tt ->
  exists name,
    result (resolveName rt projectName w) = Returned name
    /\ commands (trace (initAction rt projectName w)) =
       [("pnpm create next-app@latest " ++ name
          ++ " --typescript --tailwind --eslint --app --src-dir --import-alias "
          ++ String (ascii_of_nat 34) "@/*"
          ++ String (ascii_of_nat 34) " --turbopack --no-git")%string;
         "pnpm add next-auth@^4.24.5 bcryptjs jsonwebtoken clsx tailwind-merge"%string;
         "pnpm add react-hook-form zod @hookform/resolvers"%string;
         "pnpm add zustand"%string;
         "pnpm add @prisma/client@^6.7.0"%string;
         "pnpm add -D prisma@^6.7.0 @types/bcryptjs @types/jsonwebtoken vitest @vitejs/plugin-react @playwright/test husky lint-staged prettier"%string;
         "pnpm dlx shadcn@latest add button input label --yes"%string;
         "pnpm dlx husky@latest init"%string;
         "pnpm exec prisma init --datasource-provider sqlserver"%string].
Proof.
  pose proof (resolveName_commands projectName w) as Hsilent.
  rewrite initAction_eq.
  destruct (initBody_cases projectName w) as
    [e E0|n t0 E0 tp Ex1|n t0 e w1 E0 here tp Ex1 Ex|n t0 w1 E0 here tp Ex1 Ex Ex2
    |n t0 w1 E0 here tp Ex1 Ex Ex2];
    cbn [result trace fst snd]; try discriminate.
  rewrite E0 in Hsilent |- *. cbn [result trace fst snd] in Hsilent |- *.
  destruct (scaffold rt n tp w1) as [[[[]|e|c] w2] t2] eqn:Es;
    cbn [result trace fst snd]; try discriminate.
  intros _. exists n. split; [reflexivity|].
  pose proof (@scaffold_commands n tp w1 tt) as Hs.
  rewrite Es in Hs. specialize (Hs eq_refl). cbn [trace snd] in Hs.
  rewrite !commands_app, Hsilent, Hs. reflexivity.
Qed.

(** *** What is read, what fails *)

Lemma readBack_readsOnly (q : string) (t : list Event) (written : list string) :
  Forall (readsOnly q) t -> Forall (fun p => p = q) (readBack written t).
Proof.
  intros H. revert written.
  induction H as [|e t He _ IH]; intros written; [constructor|].
  destruct e as [| | | | | |p d [err|]| |p err|p d [err|]| |]; simpl; auto.
  destruct (Js.arrayIncludes written p); auto.
Qed.

Lemma harmless_readsOnly (q : string) (t : list Event) :
  Forall (fun e => harmless e = true) t -> Forall (readsOnly q) t.
Proof.
  apply Forall_impl. intros [] H; simpl in *; auto; discriminate.
Qed.

(** Whatever the action reads is the [package.json] of the project. *)
Lemma initAction_reads (projectName : option string) (w : W) (q : string) :
  (forall name,
      result (resolveName rt projectName w) = Returned name ->
      q = join rt (join rt (process_cwd rt w) name) "package.json") ->
  Forall (readsOnly q) (trace (initAction rt projectName w)).
Proof.
  intros Hq.
  pose proof (resolveName_harmless projectName w) as Hquiet.
  apply (harmless_readsOnly q) in Hquiet.
  rewrite initAction_eq.
  destruct (initBody_cases projectName w) as
    [e E0|n t0 E0 tp Ex1|n t0 e w1 E0 here tp Ex1 Ex|n t0 w1 E0 here tp Ex1 Ex Ex2
    |n t0 w1 E0 here tp Ex1 Ex Ex2];
    rewrite E0 in Hq, Hquiet; cbn [result trace fst snd] in Hq, Hquiet |- *;
    repeat (apply Forall_app; split); try assumption;
    try (repeat constructor).
  pose proof (scaffold_reads n tp w1) as Hs. unfold AlwaysR in Hs.
  assert (Hqe : q = join rt tp "package.json") by (apply Hq; reflexivity).
  rewrite <- Hqe in Hs.
  destruct (scaffold rt n tp w1) as [[[[]|e|c] w2] t2];
    cbn [result trace fst snd] in Hs |- *;
    repeat (apply Forall_app; split); try assumption; repeat constructor.
Qed.

(** C5, amended.  The one file the action reads back after writing it is
    the [package.json] of the project folder. *)
Theorem only_package_json_read_back (projectName : option string) (w : W) :
  Forall (fun p =>
            exists name,
              result (resolveName rt projectName w) = Returned name
              /\ p = path_join rt (path_join rt (process_cwd rt w) name)
                       "package.json")
    (readBack [] (trace (initAction rt projectName w))).
Proof.
  assert (Hall : forall q,
             (forall name,
                 result (resolveName rt projectName w) = Returned name ->
                 q = join rt (join rt (process_cwd rt w) name) "package.json") ->
             Forall (fun p => p = q)
               (readBack [] (trace (initAction rt projectName w)))).
  { intros q Hq. now apply readBack_readsOnly, initAction_reads. }
  destruct (result (resolveName rt projectName w)) as [name|e|c] eqn:Hr.
  - eapply Forall_impl; [|apply Hall; intros n Hn; injection Hn as <-;
                           reflexivity].
    intros p ->. now exists name.
  - apply Forall_forall. intros p Hin.
    assert (Ha : p = "a"%string).
    { pose proof (Hall "a"%string) as H. rewrite Forall_forall in H.
      apply H; [discriminate|assumption]. }
    assert (Hb : p = "b"%string).
    { pose proof (Hall "b"%string) as H. rewrite Forall_forall in H.
      apply H; [discriminate|assumption]. }
    congruence.
  - destruct (resolveName_run projectName w) as [_ [[n [Hn _]]|[e' [Hn _]]]];
      rewrite Hr in Hn; discriminate Hn.
Qed.

(** *** The best-effort steps *)




Ltac in_cases H :=
  repeat match type of H with
         | In _ (_ ++ _) => apply in_app_or in H; destruct H as [H|H]
         | In _ (_ :: _) => destruct H as [H|H]
         | In _ [] => destruct H
         end.







#[local] Instance CleanR_Compositional : Compositional CleanR.
Proof.
  split; unfold CleanR.
  - constructor.
  - intros o t1 t2 H1 H2 Ho. apply Forall_app. auto.
Qed.




(** *** The whole action *)


Lemma resolveName_shapes (projectName : option string) (w : W) :
  trace (resolveName rt projectName w) = []
  \/ exists a, trace (resolveName rt projectName w) = [EvPrompt a].
Proof.
  destruct (resolveName_run projectName w) as [_ [[n [_ [->| ->]]]|[e [_ ->]]]];
    eauto.
Qed.

Lemma createNextAppCommand_critical (name : string) :
  isCritical (createNextAppCommand name) = true.
Proof. reflexivity. Qed.


Ltac body_cases projectName w :=
  destruct (initBody_cases projectName w) as
    [e0 E0|n t0 E0 tp Ex1|n t0 e0 w1 E0 here tp Ex1 Ex
    |n t0 w1 E0 here tp Ex1 Ex Ex2|n t0 w1 E0 here tp Ex1 Ex Ex2].












(** C7, amended.  The program registers one sub-command of its own,
    [init], with one argument, declared optional, and [init] runs the action;
    beside it the command line answers to the [help] sub-command Commander
    adds.  The prompt's [validate] accepts an input exactly when it is a
    non-empty string of lower-case letters, digits and dashes.  When the
    argument is absent or empty, the name is the first line the user types
    that [validate] accepts; when no line is accepted the prompt is rejected
    with the error of the library. *)
Theorem one_command_one_prompt :
  map (@Commander.commandName _) (Commander.subcommands (program rt))
  = ["init"%string]
  /\ map (@Commander.commandArguments _) (Commander.subcommands (program rt))
     = [[("[project-name]"%string, "Nama project"%string)]]
  /\ Commander.optionalArgument "[project-name]" = true
  /\ map (@Commander.commandAction _) (Commander.subcommands (program rt))
     = [Some (initAction rt)]
  /\ Commander.exposed (program rt) = ["init"%string; "help"%string]
  /\ (forall input,
         accepted (validate input) = true <->
         input <> ""%string
         /\ Forall NamingViews.kebabChar (list_ascii_of_string input))
  /\ (forall w, resolveName rt (Some ""%string) w = resolveName rt None w)
  /\ (forall w name,
         result (resolveName rt None w) = Returned name ->
         accepted (validate name) = true
         /\ trace (resolveName rt None w) = [EvPrompt (Some name)]
         /\ exists before after,
              user_input rt w = before ++ name :: after
              /\ Forall (fun input => accepted (validate input) = false)
                   before)
  /\ (forall w e,
         result (resolveName rt None w) = Thrown e ->
         e = inquirer_closed rt w
         /\ Forall (fun input => accepted (validate input) = false)
              (user_input rt w)).
Proof.
  split; [reflexivity|]. split; [reflexivity|]. split; [reflexivity|].
  split; [reflexivity|]. split; [reflexivity|].
  split; [exact validate_spec|]. split; [reflexivity|].
  split.
  - intros w name. unfold resolveName, prompt.
    destruct (find _ (user_input rt w)) as [answer|] eqn:Hfind;
      cbn [result trace fst snd]; intros H; [|discriminate H].
    injection H as <-.
    destruct (find_first _ _ Hfind) as [Hok Hfirst]. auto.
  - intros w e. unfold resolveName, prompt.
    destruct (find _ (user_input rt w)) as [answer|] eqn:Hfind;
      cbn [result trace fst snd]; intros H; [discriminate H|].
    injection H as <-. split; [reflexivity|]. now apply find_nothing.
Qed.

End Phases.

(** *** Runs on the small machine *)




Lemma existing_folder_exits_witness :
  let w := Machine.addEntries ["/work/shop"%string] (Machine.fresh [] []) in
  result (Machine.init (Some "shop"%string) w) = Exited 1
  /\ world (Machine.init (Some "shop"%string) w) = w.
Proof.
  intros w.
  destruct (@existing_folder_exits Machine.World Machine.runtime
              (Some "shop"%string) w "shop"%string eq_refl eq_refl)
    as (Hr & Hw & _).
  split; assumption.
Defined.

Lemma commands_in_order_witness :
  commands (trace (Machine.init (Some "shop"%string) (Machine.fresh [] []))) =
  ["pnpm create next-app@latest shop --typescript --tailwind --eslint --app --src-dir --import-alias "
   ++ String (ascii_of_nat 34) "@/*"
   ++ String (ascii_of_nat 34) " --turbopack --no-git";
   "pnpm add next-auth@^4.24.5 bcryptjs jsonwebtoken clsx tailwind-merge";
   "pnpm add react-hook-form zod @hookform/resolvers";
   "pnpm add zustand";
   "pnpm add @prisma/client@^6.7.0";
   "pnpm add -D prisma@^6.7.0 @types/bcryptjs @types/jsonwebtoken vitest @vitejs/plugin-react @playwright/test husky lint-staged prettier";
   "pnpm dlx shadcn@latest add button input label --yes";
   "pnpm dlx husky@latest init";
   "pnpm exec prisma init --datasource-provider sqlserver"]%string.
Proof.
  destruct (@commands_in_order Machine.World Machine.runtime
              (Some "shop"%string) (Machine.fresh [] []))
    as [name [Hname Hcommands]].
  - vm_compute. reflexivity.
  - vm_compute in Hname. injection Hname as <-. exact Hcommands.
Defined.

(** C5 as stated fails: in a run where nothing goes wrong, [package.json] is
    written by [createConfigFiles] and read back by [setupHusky]; it and
    [.husky/pre-commit] are also written twice. *)
Lemma package_json_read_back :
  let run := Machine.init (Some "shop"%string) (Machine.fresh [] []) in
  result run = Returned tt
  /\ readBack [] (trace run) = ["/work/shop/package.json"%string]
  /\ rewritten [] (trace run) =
     ["/work/shop/package.json"%string; "/work/shop/.husky/pre-commit"%string].
Proof. vm_compute. repeat split. Qed.



(** C7 as stated fails: [init] is not the one sub-command the command line
    answers to. *)
Lemma help_also_exposed :
  Commander.exposed (program Machine.runtime) <> ["init"%string].
Proof. vm_compute. discriminate. Qed.

(** The eight command lines that do not depend on the project name. *)
Example fixed_commands :
  (installCommands ++ bestEffortCommands)%list =
  ["pnpm add next-auth@^4.24.5 bcryptjs jsonwebtoken clsx tailwind-merge";
   "pnpm add react-hook-form zod @hookform/resolvers";
   "pnpm add zustand";
   "pnpm add @prisma/client@^6.7.0";
   "pnpm add -D prisma@^6.7.0 @types/bcryptjs @types/jsonwebtoken vitest @vitejs/plugin-react @playwright/test husky lint-staged prettier";
   "pnpm dlx shadcn@latest add button input label --yes";
   "pnpm dlx husky@latest init";
   "pnpm exec prisma init --datasource-provider sqlserver"]%string.
Proof. reflexivity. Qed.

(** With an install failing, the action exits with status 1. *)
Lemma install_failure_exits :
  let w := Machine.fresh [] [pnpmAdd stateDependencies] in
  result (Machine.init (Some "shop"%string) w) = Exited 1
  /\ commands (trace (Machine.init (Some "shop"%string) w)) =
     [createNextAppCommand "shop"; pnpmAdd authDependencies;
      pnpmAdd formDependencies; pnpmAdd stateDependencies].
Proof. vm_compute. split; reflexivity. Qed.

End InitProofs.

(** ** More on the naming validator *)

Module ValidateNamingMore.

Import ValidateNaming NamingViews ClassFacts.

(** *** The two patterns *)

Lemma kebabCase_spec (s : string) :
  Regex.test kebabCase s = true <->
  s <> "" /\ Forall kebabChar (list_ascii_of_string s).
Proof.
  unfold Regex.test, kebabCase, Regex.Plus.
  rewrite RegexFacts.match_Class_Star.
  destruct s as [|c s]; cbn [list_ascii_of_string].
  - split; [discriminate|intros [H _]; now destruct H].
  - rewrite andb_true_iff, kebabClass_spec,
      (@forallb_class _ _ _ kebabClass_spec).
    split.
    + intros [Hc Hs]. split; [discriminate|now constructor].
    + intros [_ H]. inversion H; subst. now split.
Qed.

Lemma pascalCase_spec (s : string) :
  Regex.test pascalCase s = true <->
  exists c rest,
    s = String c rest /\ upperChar c
    /\ Forall alnumChar (list_ascii_of_string rest).
Proof.
  unfold Regex.test, pascalCase.
  rewrite RegexFacts.match_Class_Star.
  destruct s as [|c s]; cbn [list_ascii_of_string].
  - split; [discriminate|intros [c [rest [H _]]]; discriminate H].
  - rewrite andb_true_iff, upperClass_spec,
      (@forallb_class _ _ _ alnumClass_spec).
    split.
    + intros [Hc Hs]. now exists c, s.
    + intros [c' [rest [H [Hc Hs]]]]. injection H as -> ->. now split.
Qed.

(** X1.  What the two patterns accept.  The kebab-case pattern accepts the
    non-empty strings of lower-case letters, digits and dashes (so a lone
    dash, a leading digit, doubled dashes all pass); the PascalCase pattern
    accepts an upper-case letter followed by letters and digits only. *)
Theorem patterns_meaning (s : string) :
  (Regex.test kebabCase s = true <->
   s <> "" /\ Forall kebabChar (list_ascii_of_string s))
  /\ (Regex.test pascalCase s = true <->
      exists c rest,
        s = String c rest /\ upperChar c
        /\ Forall alnumChar (list_ascii_of_string rest)).
Proof. split; [apply kebabCase_spec|apply pascalCase_spec]. Qed.

Lemma patterns_disjoint (s : string) :
  Regex.test pascalCase s = true -> Regex.test kebabCase s = true -> False.
Proof.
  rewrite pascalCase_spec, kebabCase_spec.
  intros [c [rest [-> [Hup _]]]] [_ Hk]. simpl in Hk.
  inversion Hk as [|? ? Hc _]; subst.
  unfold upperChar, kebabChar, lowerChar, digitChar in *.
  clear Hk. destruct Hc as [H|[H|H]];
    [revert Hup H; generalize (nat_of_ascii c); intros; lia ..|].
  subst c. change (nat_of_ascii "-") with 45 in Hup. lia.
Qed.

(** X2.  No stem is right both ways.  Two file names with the same part
    before the first dot, one a component and one not, cannot both pass unless
    that part is one of the names let through: turning [x.ts] into [x.tsx],
    or back, always calls for a new name. *)
Theorem extension_change_needs_rename (f1 f2 p1 p2 : string) :
  nameWithoutExt f1 = nameWithoutExt f2 ->
  isComponentFile f1 = true -> isComponentFile f2 = false ->
  Js.arrayIncludes specialFiles (nameWithoutExt f1) = false ->
  fst (validateFileName f1 p1 (isComponentFile f1)) = true ->
  fst (validateFileName f2 p2 (isComponentFile f2)) = false.
Proof.
  intros Hstem -> -> Hspecial.
  rewrite !ValidateNamingProofs.validateFileName_verdict, <- Hstem, Hspecial.
  simpl. intros Hp.
  destruct (Regex.test kebabCase (nameWithoutExt f1)) eqn:Hk; [|reflexivity].
  now destruct (patterns_disjoint _ Hp Hk).
Qed.

Lemma extension_change_needs_rename_witness :
  fst (validateFileName "UserProfile.ts" "src/lib/UserProfile.ts"
         (isComponentFile "UserProfile.ts")) = false.
Proof.
  apply (@extension_change_needs_rename "UserProfile.tsx" "UserProfile.ts"
           "src/components/UserProfile.tsx" "src/lib/UserProfile.ts");
    reflexivity.
Defined.

(** *** Splitting and joining *)

Lemma startsWith_spec (s p : string) :
  Js.startsWith s p = true <-> exists post, s = p ++ post.
Proof.
  revert s. induction p as [|b p IH]; intros s; cbn [Js.startsWith].
  - split; [intros _; now exists s|reflexivity].
  - destruct s as [|a s].
    { split; [discriminate|intros [post H]; discriminate H]. }
    rewrite andb_true_iff, IH. split.
    + intros [E [post ->]]. apply Ascii.eqb_eq in E. subst. now exists post.
    + intros [post H]. simpl in H. injection H as -> ->.
      split; [apply Ascii.eqb_refl|now exists post].
Qed.

Lemma includes_spec (s p : string) :
  Js.includes s p = true <-> exists pre post, s = pre ++ p ++ post.
Proof.
  induction s as [|a s IH]; cbn [Js.includes].
  - destruct (Js.startsWith "" p) eqn:E.
    + split; [|reflexivity]. intros _. apply startsWith_spec in E.
      destruct E as [post E]. now exists "", post.
    + split; [discriminate|]. intros [pre [post H]].
      destruct pre; [|discriminate H]. simpl in H.
      assert (Js.startsWith "" p = true)
        by (apply startsWith_spec; now exists post).
      congruence.
  - destruct (Js.startsWith (String a s) p) eqn:E.
    + split; [|reflexivity]. intros _. apply startsWith_spec in E.
      destruct E as [post E]. now exists "", post.
    + rewrite IH. split.
      * intros [pre [post ->]]. now exists (String a pre), post.
      * intros [pre [post H]]. destruct pre as [|b pre]; simpl in H.
        { assert (Js.startsWith (String a s) p = true)
            by (apply startsWith_spec; now exists post).
          congruence. }
        { injection H as _ ->. now exists pre, post. }
Qed.

Lemma split_nonempty (c : ascii) (s : string) : Js.split c s <> [].
Proof.
  destruct s as [|a s]; simpl; [discriminate|].
  destruct (Ascii.eqb a c); [discriminate|].
  destruct (Js.split c s); discriminate.
Qed.

Lemma append_assoc (a b c : string) : (a ++ b) ++ c = a ++ b ++ c.
Proof. induction a as [|x a IH]; simpl; [reflexivity|now rewrite IH]. Qed.

Lemma join_cons (sep x : string) (xs : list string) :
  xs <> [] -> Js.join sep (x :: xs) = x ++ sep ++ Js.join sep xs.
Proof. destruct xs; [congruence|reflexivity]. Qed.

Lemma join_app (sep : string) (l1 l2 : list string) :
  l1 <> [] -> l2 <> [] ->
  Js.join sep (l1 ++ l2)%list = Js.join sep l1 ++ sep ++ Js.join sep l2.
Proof.
  intros H1 H2. induction l1 as [|x l1 IH]; [congruence|].
  destruct l1 as [|y l1].
  - cbn [app]. now rewrite join_cons.
  - change ((x :: y :: l1) ++ l2)%list with (x :: ((y :: l1) ++ l2))%list.
    rewrite !join_cons by discriminate.
    rewrite IH by discriminate. now rewrite !append_assoc.
Qed.

(** Joining what [split] gives restores the string. *)
Lemma join_split (c : ascii) (s : string) :
  Js.join (String c "") (Js.split c s) = s.
Proof.
  induction s as [|a s IH]; [reflexivity|]. cbn [Js.split].
  destruct (Ascii.eqb_spec a c) as [->|Hne].
  - rewrite join_cons by apply split_nonempty. now rewrite IH.
  - destruct (Js.split c s) as [|x xs] eqn:E.
    + now destruct (split_nonempty c s).
    + destruct xs as [|y xs].
      * simpl in *. now subst.
      * change (Js.join (String c "") (String a x :: y :: xs))
          with (String a (Js.join (String c "") (x :: y :: xs))).
        now rewrite IH.
Qed.

Lemma firstn_snoc (l : list string) (i : nat) :
  i < length l -> firstn (i + 1) l = (firstn i l ++ [nth i l ""])%list.
Proof.
  revert i. induction l as [|x l IH]; intros [|i] H; simpl in *; try lia;
    [reflexivity|].
  f_equal. apply IH. lia.
Qed.

(** The folder path of turn [i] is a proper prefix of the path, cut at a
    separator, and ends with the folder name. *)
Lemma folderPath_cut (rel : string) (i : nat) :
  let parts := Js.split Posix.sep rel in
  1 <= i -> i + 1 < length parts ->
  exists pre rest,
    Js.join "/" (Js.slice0 parts (i + 1)) = pre ++ "/" ++ Js.index parts i
    /\ rel = Js.join "/" (Js.slice0 parts (i + 1)) ++ "/" ++ rest.
Proof.
  intros parts Hi Hlen. unfold Js.slice0, Js.index.
  exists (Js.join "/" (firstn i parts)), (Js.join "/" (skipn (i + 1) parts)).
  split.
  - rewrite firstn_snoc by lia. rewrite join_app; [reflexivity| |discriminate].
    intros E. apply (f_equal (@length string)) in E.
    rewrite length_firstn in E. simpl in E. lia.
  - rewrite <- join_app.
    + rewrite firstn_skipn. symmetry. apply (join_split "/" rel).
    + intros E. apply (f_equal (@length string)) in E.
      rewrite length_firstn in E. simpl in E. lia.
    + intros E. apply (f_equal (@length string)) in E.
      rewrite length_skipn in E. simpl in E. lia.
Qed.

Lemma split_noDot (stem : string) :
  noDot stem -> Js.split "." stem = [stem].
Proof.
  unfold noDot. induction stem as [|a stem IH]; [reflexivity|].
  cbn [list_ascii_of_string Js.split]. intros H.
  destruct (Ascii.eqb_spec a ".") as [->|Hne]; [destruct H; now left|].
  rewrite IH; [reflexivity|]. intros Hin. apply H. now right.
Qed.

Lemma split_first_dot (stem rest : string) :
  noDot stem ->
  Js.split "." (stem ++ "." ++ rest) = stem :: Js.split "." rest.
Proof.
  unfold noDot. induction stem as [|a stem IH]; [reflexivity|].
  cbn [list_ascii_of_string]. intros H.
  change (String a stem ++ "." ++ rest) with (String a (stem ++ "." ++ rest)).
  cbn [Js.split].
  destruct (Ascii.eqb_spec a ".") as [->|Hne]; [destruct H; now left|].
  rewrite IH; [reflexivity|]. intros Hin. apply H. now right.
Qed.

(** X3.  Only the part before the first dot counts.  Whatever follows the
    first dot of a file name plays no part in the check: the name is judged,
    and reported, as its first part alone would be. *)
Theorem only_first_dot_counts (stem rest filePath : string)
  (isComponent : bool) :
  noDot stem ->
  nameWithoutExt (stem ++ "." ++ rest) = stem
  /\ validateFileName (stem ++ "." ++ rest) filePath isComponent
     = validateFileName stem filePath isComponent.
Proof.
  intros H.
  assert (E1 : nameWithoutExt (stem ++ "." ++ rest) = stem)
    by (unfold nameWithoutExt; now rewrite split_first_dot).
  assert (E2 : nameWithoutExt stem = stem)
    by (unfold nameWithoutExt; now rewrite split_noDot).
  split; [exact E1|]. unfold validateFileName. now rewrite E1, E2.
Qed.

Lemma only_first_dot_counts_witness :
  validateFileName "user.Service_V2.BAD.ts" "src/lib/user.Service_V2.BAD.ts"
    false = (true, []).
Proof.
  destruct (@only_first_dot_counts "user" "Service_V2.BAD.ts"
              "src/lib/user.Service_V2.BAD.ts" false) as [_ E].
  - unfold noDot. simpl. intros H.
    repeat (destruct H as [H|H]; [discriminate H|]). exact H.
  - exact (eq_trans E eq_refl).
Defined.

(** *** The loop, file by file *)

Lemma folders_lines (parts : list string) (indices : list nat) (st : State) :
  stderr (fold_left (folderTurn parts) indices st)
  = (stderr st ++ flat_map (folderLines parts) indices)%list.
Proof.
  revert st. induction indices as [|i indices IH]; intros st; cbn [fold_left flat_map].
  - now rewrite app_nil_r.
  - rewrite IH. unfold folderTurn, record, folderLines. cbn [stderr].
    now rewrite <- app_assoc.
Qed.

Section Script.

Variable Disk : Type.
Variable path_relative : string -> string -> string.

Local Abbreviation forEachBody := (forEachBody path_relative).
Local Abbreviation main := (main path_relative).

Lemma forEachBody_lines (p : Process Disk) (st : State) (file : string) :
  stderr (forEachBody p st file) = (stderr st ++ linesOf (path_relative (cwd p) file))%list.
Proof.
  unfold ValidateNaming.forEachBody, linesOf, validated.
  destruct (skipped (path_relative (cwd p) file)); cbn [negb andb];
    [now rewrite app_nil_r|].
  destruct (Js.startsWith (path_relative (cwd p) file) "src/");
    cbn [negb andb]; [|now rewrite app_nil_r].
  cbv zeta. rewrite folders_lines. unfold record at 1. cbn [stderr].
  unfold baseName. rewrite JsFacts.index_last. now rewrite <- app_assoc.
Qed.

Lemma loop_lines (p : Process Disk) (files : list string) (st : State) :
  stderr (fold_left (forEachBody p) files st)
  = (stderr st ++ flat_map (fun file => linesOf (path_relative (cwd p) file)) files)%list.
Proof.
  revert st. induction files as [|file files IH]; intros st;
    cbn [fold_left flat_map].
  - now rewrite app_nil_r.
  - rewrite IH, forEachBody_lines. now rewrite <- app_assoc.
Qed.

(** The error stream of a run: the lines of the loop, then the summary if
    the flag is up. *)
Lemma main_errorOutput (p : Process Disk) :
  errorOutput (fst (main p))
  = (flat_map (fun file => linesOf (path_relative (cwd p) file)) (skipn 2 (argv p))
     ++ (if existsb (fun file => violates (path_relative (cwd p) file)) (skipn 2 (argv p))
         then summary else []))%list.
Proof.
  destruct (ValidateNamingProofs.stagedFiles_spec path_relative p) as [_ He].
  cbv zeta in He. unfold ValidateNaming.main. cbv zeta. rewrite <- He.
  destruct (hasError _); cbn [fst errorOutput]; rewrite loop_lines;
    cbn [stderr app]; [reflexivity|now rewrite app_nil_r].
Qed.

Lemma main_termination (p : Process Disk) :
  termination (fst (main p))
  = (if existsb (fun file => violates (path_relative (cwd p) file)) (skipn 2 (argv p))
     then ProcessExit 1 else EndOfScript)
  /\ standardOutput (fst (main p))
     = (if existsb (fun file => violates (path_relative (cwd p) file)) (skipn 2 (argv p))
        then [] else [NamingValid]).
Proof.
  destruct (ValidateNamingProofs.stagedFiles_spec path_relative p) as [_ He].
  cbv zeta in He. unfold ValidateNaming.main. cbv zeta. rewrite <- He.
  destruct (hasError _); split; reflexivity.
Qed.

(** X4.  The error stream is put together file by file.  What the script
    prints for a staged file depends on that file alone; the output is what
    each file gives, in the order of the arguments, followed by the summary
    when some file is refused. *)
Theorem output_file_by_file (p : Process Disk) :
  errorOutput (fst (main p))
  = (flat_map (fun file => linesOf (path_relative (cwd p) file))
       (skipn 2 (argv p))
     ++ (if existsb (fun file => violates (path_relative (cwd p) file))
              (skipn 2 (argv p))
         then summary else []))%list.
Proof. apply main_errorOutput. Qed.

Lemma flat_map_nil {A B} (f : A -> list B) (l : list A) :
  (forall x, In x l -> f x = []) -> flat_map f l = [].
Proof.
  induction l as [|x l IH]; intros H; [reflexivity|].
  cbn [flat_map]. rewrite IH by (intros y Hy; apply H; now right).
  now rewrite (H x (or_introl eq_refl)).
Qed.

Lemma existsb_Permutation {A} (f : A -> bool) (l1 l2 : list A) :
  Permutation l1 l2 -> existsb f l1 = existsb f l2.
Proof.
  induction 1 as [|x l1 l2 _ IH|x y l|l1 l2 l3 _ IH1 _ IH2]; simpl;
    [reflexivity|now rewrite IH| |congruence].
  now destruct (f x), (f y).
Qed.

(** X5.  The order of the staged files does not matter.  Two runs in the
    same directory over the same files in another order end the same way,
    and print the same lines up to their order. *)
Theorem order_does_not_matter (p1 p2 : Process Disk) :
  cwd p1 = cwd p2 ->
  Permutation (skipn 2 (argv p1)) (skipn 2 (argv p2)) ->
  termination (fst (main p1)) = termination (fst (main p2))
  /\ standardOutput (fst (main p1)) = standardOutput (fst (main p2))
  /\ Permutation (errorOutput (fst (main p1))) (errorOutput (fst (main p2))).
Proof.
  intros Hcwd Hperm.
  destruct (main_termination p1) as [Ht1 Ho1].
  destruct (main_termination p2) as [Ht2 Ho2].
  rewrite Ht1, Ht2, Ho1, Ho2, !main_errorOutput, Hcwd.
  rewrite (existsb_Permutation _ Hperm).
  repeat split. apply Permutation_app_tail.
  now apply Permutation_flat_map.
Qed.

(** A run in which no staged path violates a rule. *)
Lemma no_violation_passes (p : Process Disk) :
  existsb (fun file => violates (path_relative (cwd p) file))
    (skipn 2 (argv p)) = false ->
  fst (main p) = {| termination := EndOfScript;
                    errorOutput := [];
                    standardOutput := [NamingValid] |}.
Proof.
  intros Hv.
  destruct (ValidateNamingProofs.stagedFiles_spec path_relative p)
    as [[Hclean _] He].
  cbv zeta in *. unfold ValidateNaming.main. cbv zeta.
  rewrite Hv in He. rewrite He. cbn [fst]. now rewrite (Hclean He).
Qed.

(** X6.  Files outside [src/] are never looked at.  If no staged path is
    under [src/], the script ends normally with the success line and prints
    nothing on the error stream, whatever the names are. *)
Theorem outside_src_passes (p : Process Disk) :
  (forall file, In file (skipn 2 (argv p)) ->
                Js.startsWith (path_relative (cwd p) file) "src/" = false) ->
  fst (main p) = {| termination := EndOfScript;
                    errorOutput := [];
                    standardOutput := [NamingValid] |}.
Proof.
  intros H.
  assert (Hv : existsb (fun file => violates (path_relative (cwd p) file)) (skipn 2 (argv p))
               = false).
  { apply not_true_is_false. intros E. apply existsb_exists in E.
    destruct E as [file [Hin E]]. unfold violates, validated in E.
    rewrite (H _ Hin), andb_false_r in E. discriminate E. }
  assert (Hl : flat_map (fun file => linesOf (path_relative (cwd p) file)) (skipn 2 (argv p))
               = []).
  { apply flat_map_nil. intros file Hin. unfold linesOf, validated.
    now rewrite (H _ Hin), andb_false_r. }
  destruct (main_termination p) as [Ht Ho].
  pose proof (main_errorOutput p) as He.
  rewrite Hv in Ht, Ho, He. rewrite Hl in He.
  destruct (fst (main p)) as [t e o]. simpl in *. now subst.
Qed.

(** X7.  The skip test is a substring test on the whole relative path.  A
    path is skipped exactly when one of [node_modules], [.next], [dist] and
    [.git] occurs somewhere in it, be it inside a file name; a skipped path
    leaves the state of the script as it was. *)
Theorem skip_is_by_substring (p : Process Disk) (st : State) (file : string) :
  let relativePath := path_relative (cwd p) file in
  (skipped relativePath = true <->
   exists marker pre post,
     In marker skipMarkers /\ relativePath = pre ++ marker ++ post)
  /\ (skipped relativePath = true -> forEachBody p st file = st).
Proof.
  intros relativePath. split.
  - unfold skipped, skipMarkers. rewrite !orb_true_iff, !includes_spec. split.
    + intros [[[H|H]|H]|H]; destruct H as [pre [post H]];
        eexists; exists pre, post; (split; [|exact H]); simpl; auto.
    + intros [marker [pre [post [Hin H]]]]. simpl in Hin.
      destruct Hin as [<-|[<-|[<-|[<-|[]]]]]; eauto 6.
  - intros H. unfold ValidateNaming.forEachBody. fold relativePath.
    now rewrite H.
Qed.

Lemma linesOf_validated (relativePath : string) (l : Line) :
  In l (linesOf relativePath) -> validated relativePath = true.
Proof. unfold linesOf. now destruct (validated relativePath). Qed.

(** What a line of [linesOf] stands on. *)
Lemma linesOf_justified (relativePath : string) (l : Line) :
  In l (linesOf relativePath) ->
  match l with
  | ErrComponentPascalCase fp =>
      fp = relativePath /\ isComponentFile (baseName fp) = true
      /\ fileNameRule (baseName fp) = false
  | ErrFileKebabCase fp =>
      fp = relativePath /\ isComponentFile (baseName fp) = false
      /\ fileNameRule (baseName fp) = false
  | ErrFolderKebabCase fp =>
      exists pre d rest,
        relativePath = fp ++ "/" ++ rest /\ fp = pre ++ "/" ++ d
        /\ In d (folderSegments relativePath) /\ folderRule d = false
  | HintPascalCase | HintFileKebabCase | HintFolderKebabCase => True
  | _ => False
  end.
Proof.
  unfold linesOf. destruct (validated relativePath); [|intros []].
  cbv zeta. intros H. apply in_app_or in H. destruct H as [H|H].
  - unfold validateFileName in H. cbv zeta in H.
    destruct (Js.arrayIncludes specialFiles _) eqn:Hs; [destruct H|].
    destruct (isComponentFile (baseName relativePath)) eqn:Hc.
    + destruct (Regex.test pascalCase _) eqn:Hp; cbn in H; [destruct H|].
      destruct H as [<-|[<-|[]]]; [|exact I].
      unfold fileNameRule. now rewrite Hc, Hs, Hp.
    + destruct (Regex.test kebabCase _) eqn:Hp; cbn in H; [destruct H|].
      destruct H as [<-|[<-|[]]]; [|exact I].
      unfold fileNameRule. now rewrite Hc, Hs, Hp.
  - apply in_flat_map in H. destruct H as [i [Hi H]].
    apply in_seq in Hi. unfold folderLines in H.
    pose proof (ValidateNamingProofs.validateFolderName_verdict
                  (Js.index (Js.split Posix.sep relativePath) i)
                  (Js.join "/" (Js.slice0 (Js.split Posix.sep relativePath)
                                  (i + 1)))) as Hv.
    unfold validateFolderName in H, Hv.
    destruct (Js.startsWith _ "_" || Js.startsWith _ "["
              || Js.startsWith _ "("); [destruct H|].
    destruct (Js.arrayIncludes specialFolders _); [destruct H|].
    destruct (Regex.test kebabCase _); cbn in H; [destruct H|].
    destruct H as [<-|[<-|[]]]; [|exact I].
    destruct (@folderPath_cut relativePath i) as [pre [rest [Hp Hr]]];
      [lia|lia|].
    exists pre, (Js.index (Js.split Posix.sep relativePath) i), rest.
    repeat split; [exact Hr|exact Hp| |symmetry; exact Hv].
    unfold folderSegments. rewrite <- JsFacts.inner_indices.
    apply in_map, in_seq. lia.
Qed.

(** X8.  Every error line has its reason.  A line naming a file names a
    staged path under [src/], not skipped, whose file name breaks the rule
    for its kind; a line naming a folder names a prefix of such a path, cut
    at a separator, whose last segment is a folder of the path that breaks
    the folder rule. *)
Theorem error_lines_justified (p : Process Disk) (l : Line) :
  In l (errorOutput (fst (main p))) ->
  match l with
  | ErrComponentPascalCase fp =>
      exists file,
        In file (skipn 2 (argv p)) /\ fp = path_relative (cwd p) file
        /\ validated fp = true /\ isComponentFile (baseName fp) = true
        /\ fileNameRule (baseName fp) = false
  | ErrFileKebabCase fp =>
      exists file,
        In file (skipn 2 (argv p)) /\ fp = path_relative (cwd p) file
        /\ validated fp = true /\ isComponentFile (baseName fp) = false
        /\ fileNameRule (baseName fp) = false
  | ErrFolderKebabCase fp =>
      exists file pre d rest,
        In file (skipn 2 (argv p))
        /\ path_relative (cwd p) file = fp ++ "/" ++ rest
        /\ fp = pre ++ "/" ++ d
        /\ validated (path_relative (cwd p) file) = true
        /\ In d (folderSegments (path_relative (cwd p) file))
        /\ folderRule d = false
  | _ => True
  end.
Proof.
  rewrite main_errorOutput. intros H. apply in_app_or in H.
  destruct H as [H|H].
  - apply in_flat_map in H. destruct H as [file [Hin H]].
    pose proof (linesOf_validated _ _ H) as Hv.
    apply linesOf_justified in H.
    destruct l; try exact I.
    + destruct H as (-> & Hc & Hr). exists file. auto.
    + destruct H as (-> & Hc & Hr). exists file. auto.
    + destruct H as (pre & d & rest & Hr & Hp & Hd & Hf).
      exists file, pre, d, rest. auto 8.
  - destruct (existsb _ _); [|destruct H].
    unfold summary in H. simpl in H.
    repeat (destruct H as [<-|H]; [exact I|]). destruct H.
Qed.

(** X9.  Every violation is named.  For a staged path under [src/] that is
    not skipped, a file name that breaks its rule gets the error line of its
    kind with the whole path, and each folder that breaks the folder rule
    gets an error line with the path up to that folder. *)
Theorem violations_all_named (p : Process Disk) (file : string) :
  let relativePath := path_relative (cwd p) file in
  In file (skipn 2 (argv p)) ->
  validated relativePath = true ->
  (fileNameRule (baseName relativePath) = false ->
   In (if isComponentFile (baseName relativePath)
       then ErrComponentPascalCase relativePath
       else ErrFileKebabCase relativePath)
      (errorOutput (fst (main p))))
  /\ (forall d,
         In d (folderSegments relativePath) -> folderRule d = false ->
         exists pre rest,
           relativePath = pre ++ "/" ++ d ++ "/" ++ rest
           /\ In (ErrFolderKebabCase (pre ++ "/" ++ d))
                (errorOutput (fst (main p)))).
Proof.
  intros relativePath Hin Hv.
  assert (Hout : forall l, In l (linesOf relativePath) ->
                           In l (errorOutput (fst (main p)))).
  { intros l Hl. rewrite main_errorOutput. apply in_or_app. left.
    apply in_flat_map. now exists file. }
  split.
  - intros Hr. apply Hout. unfold linesOf. rewrite Hv. cbv zeta.
    apply in_or_app. left. unfold fileNameRule in Hr.
    apply orb_false_iff in Hr. destruct Hr as [Hs Hr].
    unfold validateFileName. rewrite Hs.
    destruct (isComponentFile (baseName relativePath)); rewrite Hr;
      simpl; auto.
  - intros d Hd Hr. unfold folderSegments in Hd.
    rewrite <- JsFacts.inner_indices in Hd. apply in_map_iff in Hd.
    destruct Hd as [i [<- Hi]]. apply in_seq in Hi.
    destruct (@folderPath_cut relativePath i) as [pre [rest [Hp Hrel]]];
      [lia|lia|].
    exists pre, rest. split.
    + rewrite Hrel at 1. rewrite Hp. now rewrite !append_assoc.
    + apply Hout. unfold linesOf. rewrite Hv. cbv zeta.
      apply in_or_app. right. apply in_flat_map. exists i.
      split; [apply in_seq; lia|].
      unfold folderLines. rewrite Hp.
      pose proof (ValidateNamingProofs.validateFolderName_verdict
                    (Js.index (Js.split Posix.sep relativePath) i)
                    (pre ++ "/" ++ Js.index (Js.split Posix.sep relativePath) i))
        as Hverdict.
      rewrite Hr in Hverdict. unfold validateFolderName in *.
      destruct (Js.startsWith _ "_" || Js.startsWith _ "["
                || Js.startsWith _ "("); [discriminate Hverdict|].
      destruct (Js.arrayIncludes specialFolders _); [discriminate Hverdict|].
      destruct (Regex.test kebabCase _); [discriminate Hverdict|].
      simpl. auto.
Qed.

End Script.

(** *** Runs in a repository checked out at [/repo] *)

Lemma order_does_not_matter_witness :
  let run files :=
    fst (ValidateNaming.main (Posix.relative "/repo")
           {| argv := "node" :: ".husky/validate-naming.js" :: files;
              cwd := "/repo"; disk := tt |}) in
  termination (run ["src/lib/Bad_Name.ts"; "src/components/UserProfile.tsx"])
  = termination (run ["src/components/UserProfile.tsx"; "src/lib/Bad_Name.ts"])
  /\ Permutation
       (errorOutput
          (run ["src/lib/Bad_Name.ts"; "src/components/UserProfile.tsx"]))
       (errorOutput
          (run ["src/components/UserProfile.tsx"; "src/lib/Bad_Name.ts"])).
Proof.
  intros run.
  destruct (@order_does_not_matter unit (Posix.relative "/repo")
              {| argv := ["node"; ".husky/validate-naming.js";
                          "src/lib/Bad_Name.ts";
                          "src/components/UserProfile.tsx"];
                 cwd := "/repo"; disk := tt |}
              {| argv := ["node"; ".husky/validate-naming.js";
                          "src/components/UserProfile.tsx";
                          "src/lib/Bad_Name.ts"];
                 cwd := "/repo"; disk := tt |})
    as (Ht & _ & He); [reflexivity|apply perm_swap|].
  split; [exact Ht|exact He].
Defined.

Lemma outside_src_passes_witness :
  fst (ValidateNaming.main (Posix.relative "/repo")
         {| argv := ["node"; ".husky/validate-naming.js"; "README.md";
                     "app/Bad Name.TSX"; "/repo/e2e/My_Test.spec.ts"];
            cwd := "/repo"; disk := tt |})
  = {| termination := EndOfScript; errorOutput := [];
       standardOutput := [NamingValid] |}.
Proof.
  apply (@outside_src_passes unit (Posix.relative "/repo")).
  intros file H. simpl in H.
  destruct H as [<-|[<-|[<-|[]]]]; reflexivity.
Defined.

Lemma error_lines_justified_witness :
  let p := {| argv := ["node"; ".husky/validate-naming.js";
                       "src/Bad_Folder/cards/user-card.ts"];
              cwd := "/repo"; disk := tt |} in
  exists file pre d rest,
    In file (skipn 2 (argv p))
    /\ Posix.relative "/repo" (cwd p) file = "src/Bad_Folder" ++ "/" ++ rest
    /\ "src/Bad_Folder" = pre ++ "/" ++ d
    /\ validated (Posix.relative "/repo" (cwd p) file) = true
    /\ In d (folderSegments (Posix.relative "/repo" (cwd p) file))
    /\ folderRule d = false.
Proof.
  intros p.
  apply (@error_lines_justified unit (Posix.relative "/repo") p
           (ErrFolderKebabCase "src/Bad_Folder")).
  vm_compute. auto.
Defined.

Lemma violations_all_named_witness :
  In (ErrFileKebabCase "src/lib/Bad_Name.ts")
    (errorOutput
       (fst (ValidateNaming.main (Posix.relative "/repo")
               {| argv := ["node"; ".husky/validate-naming.js";
                           "/repo/src/lib/Bad_Name.ts"];
                  cwd := "/repo"; disk := tt |}))).
Proof.
  destruct (@violations_all_named unit (Posix.relative "/repo")
              {| argv := ["node"; ".husky/validate-naming.js";
                          "/repo/src/lib/Bad_Name.ts"];
                 cwd := "/repo"; disk := tt |}
              "/repo/src/lib/Bad_Name.ts") as [H _];
    [simpl; auto|reflexivity|].
  exact (H eq_refl).
Defined.

(** A component whose name holds [dist] goes unchecked. *)
Example skipped_by_accident :
  fst (Machine.validate ["src/components/distance_calc.tsx"])
  = {| termination := EndOfScript; errorOutput := [];
       standardOutput := [NamingValid] |}
  /\ fileNameRule "distance_calc.tsx" = false.
Proof. split; reflexivity. Qed.

End ValidateNamingMore.

(** ** More on the [init] command *)

Module InitMore.

Import Init InitViews InitProofs.
Local Open Scope list_scope.

#[local] Existing Instance AlwaysR_Compositional.
#[local] Existing Instance AlwaysR_Catching.
#[local] Existing Instance NoExitR_Compositional.
#[local] Existing Instance NoExitR_Catching.

(** *** Objects *)

Lemma getProperty_setProperty_same (obj : jsobject) (k : string) (v : json) :
  getProperty (setProperty obj k v) k = Some v.
Proof.
  induction obj as [|[k0 v0] obj IH]; simpl.
  - now rewrite String.eqb_refl.
  - destruct (String.eqb k0 k) eqn:E; simpl; now rewrite E.
Qed.

Lemma getProperty_setProperty_other (obj : jsobject) (k k' : string)
  (v : json) :
  k' <> k -> getProperty (setProperty obj k v) k' = getProperty obj k'.
Proof.
  intros Hne. induction obj as [|[k0 v0] obj IH]; simpl.
  - destruct (String.eqb_spec k k'); [congruence|reflexivity].
  - destruct (String.eqb_spec k0 k) as [->|E]; simpl.
    + destruct (String.eqb_spec k k'); [congruence|reflexivity].
    + now rewrite IH.
Qed.

Lemma getProperty_extend_other (base fields : jsobject) (k : string) :
  ~ In k (map fst fields) ->
  getProperty (extend base fields) k = getProperty base k.
Proof.
  unfold extend. revert base.
  induction fields as [|[k0 v0] fields IH]; intros base H; simpl in *;
    [reflexivity|].
  rewrite IH by tauto. apply getProperty_setProperty_other.
  intros ->. tauto.
Qed.

Lemma getProperty_extend_same (base fields : jsobject) (k : string)
  (v : json) :
  NoDup (map fst fields) -> In (k, v) fields ->
  getProperty (extend base fields) k = Some v.
Proof.
  unfold extend. revert base.
  induction fields as [|[k0 v0] fields IH]; intros base Hnd Hin;
    [destruct Hin|].
  simpl in *. inversion Hnd as [|? ? Hnot Hnd']; subst.
  destruct Hin as [E|Hin].
  - injection E as -> ->.
    fold (extend (setProperty base k v) fields).
    rewrite getProperty_extend_other by assumption.
    apply getProperty_setProperty_same.
  - now apply IH.
Qed.

(** What the spread copies from a string and from an array. *)
Example spread_string :
  spread (Some (JString "abc"))
  = [("0", JString "a"); ("1", JString "b"); ("2", JString "c")].
Proof. reflexivity. Qed.

Example spread_array :
  spread (Some (JArray [JNull; JBool true]))
  = [("0", JNull); ("1", JBool true)].
Proof. reflexivity. Qed.

Lemma scripts_NoDup : NoDup (map fst scripts).
Proof.
  simpl. repeat (constructor; [simpl; intuition discriminate|]). constructor.
Qed.

Section Runs.

Variable W : Type.
Variable rt : Runtime W.

Ltac body_cases projectName w :=
  destruct (initBody_cases rt projectName w) as
    [e0 E0|n t0 E0 tp Ex1|n t0 e0 w1 E0 here tp Ex1 Ex
    |n t0 w1 E0 here tp Ex1 Ex Ex2|n t0 w1 E0 here tp Ex1 Ex Ex2].

Ltac returned H :=
  lazymatch type of H with
  | result (bind _ _ _) = Returned _ =>
      let a := fresh "a" in
      let Hm := fresh "Hm" in
      let Ht := fresh "Ht" in
      apply bind_Returned in H; destruct H as (a & Hm & H & Ht & _);
      rewrite Ht; clear Ht; cbv beta in H |- *; returned H
  | _ => idtac
  end.

Ltac in_cases H :=
  repeat match type of H with
         | In _ (_ ++ _) => apply in_app_or in H; destruct H as [H|H]
         | In _ (_ :: _) => destruct H as [H|H]
         | In _ [] => destruct H
         end.

(** *** How a run ends *)

(** [scaffold] returns after the closing lines, or throws. *)
Lemma scaffold_ends (name targetPath : string) (w : W) :
  (result (scaffold rt name targetPath w) = Returned tt
   /\ exists t, trace (scaffold rt name targetPath w) = t ++ nextSteps name)
  \/ exists e, result (scaffold rt name targetPath w) = Thrown e.
Proof.
  pose proof (scaffold_accounted rt name targetPath w) as Ha.
  unfold AccountedR in Ha.
  destruct (result (scaffold rt name targetPath w)) as [[]|e|c] eqn:Hr;
    cbn [ended] in Ha; [left|right; eauto|contradiction].
  split; [reflexivity|]. unfold scaffold in *. returned Hr.
  match goal with
  | |- context [trace (printNextSteps ?n ?w')] =>
      change (trace (printNextSteps n w')) with (nextSteps n)
  end.
  repeat rewrite app_assoc. eexists. reflexivity.
Qed.

(** X10.  The action never lets an error out, and ends in one of three
    ways: it returns, the closing lines being the last thing printed; it
    ends in [process.exit(1)] right after the line saying that the folder is
    there; or it ends in [process.exit(1)] right after the report of an
    error and the tips.  No other exit status occurs. *)
Theorem action_ends_three_ways (projectName : option string) (w : W) :
  let run := initAction rt projectName w in
  (result run = Returned tt
   /\ exists name t,
        result (resolveName rt projectName w) = Returned name
        /\ trace run = t ++ nextSteps name)
  \/ (result run = Exited 1
      /\ exists name t,
           result (resolveName rt projectName w) = Returned name
           /\ trace run = t ++ [EvConsole stdout (MsgFolderExists name)])
  \/ (result run = Exited 1
      /\ exists e t, trace run = t ++ report e).
Proof.
  cbv zeta. rewrite initAction_eq.
  body_cases projectName w; rewrite ?E0; cbn [result trace fst snd].
  - right. right. split; [reflexivity|]. eauto.
  - right. left. split; [reflexivity|].
    exists n, (t0 ++ [EvExistsSync tp true]).
    split; [reflexivity|]. now rewrite <- app_assoc.
  - right. right. split; [reflexivity|]. eauto.
  - right. right. split; [reflexivity|]. eauto.
  - destruct (scaffold_ends n tp w1) as [[Hr [t Ht]]|[e Hr]].
    + left. destruct (scaffold rt n tp w1) as [[r w2] t2].
      cbn [result trace fst snd] in *. subst r. split; [reflexivity|].
      exists n. eexists. split; [reflexivity|]. rewrite Ht.
      rewrite !app_assoc. reflexivity.
    + right. right. destruct (scaffold rt n tp w1) as [[r w2] t2].
      cbn [result trace fst snd] in *. subst r. cbn [result trace fst snd].
      split; [reflexivity|]. eauto.
Qed.

(** *** The first steps *)

Lemma scaffold_notPrompt (name targetPath : string) :
  Sat (AlwaysR notPrompt) (scaffold rt name targetPath).
Proof.
  unfold scaffold, installDependencies, createProjectStructure,
    createConfigFiles, setupShadcn, huskyStep, setupHusky, prismaStep,
    setupPrisma, printNextSteps.
  sat_with always_side.
Qed.

Lemma resolveName_argument (name : string) (w : W) :
  name <> "" -> resolveName rt (Some name) w = (Returned name, w, []).
Proof.
  intros H. unfold resolveName, falsy.
  destruct (String.eqb_spec name ""); [contradiction|reflexivity].
Qed.

(** X11.  A name given on the command line is taken as it is.  The
    [validate] callback belongs to the prompt: when the argument is a
    non-empty string there is no prompt and no check, and unless the folder
    is there already [create-next-app] is started with the argument spliced
    into its command line, whatever characters it holds. *)
Theorem argument_not_validated (name : string) (w : W) :
  name <> "" ->
  let run := initAction rt (Some name) w in
  resolveName rt (Some name) w = (Returned name, w, [])
  /\ (forall answer, ~ In (EvPrompt answer) (trace run))
  /\ (fs_existsSync rt (path_join rt (process_cwd rt w) name) w = false ->
      exists e,
        In (EvExecSync (createNextAppCommand name)
              {| stdio := inherit; cwd := process_cwd rt w |} e) (trace run)).
Proof.
  intros Hname run. pose proof (resolveName_argument w Hname) as Hr.
  split; [exact Hr|]. subst run. rewrite initAction_eq.
  pose proof scaffold_notPrompt as Hs.
  body_cases (Some name) w; rewrite Hr in E0; try discriminate E0;
    injection E0 as <- <-; unfold join in *; cbn [result trace fst snd app];
    unfold report, prelude.
  - split; [|intros Hno; subst tp; congruence].
    intros answer Hin. in_cases Hin; discriminate Hin.
  - split; [|intros _; eexists; simpl; eauto 8].
    intros answer Hin. in_cases Hin; discriminate Hin.
  - split; [|intros _; eexists; simpl; eauto 8].
    intros answer Hin. in_cases Hin; discriminate Hin.
  - specialize (Hs name tp w1). unfold AlwaysR in Hs.
    rewrite Forall_forall in Hs.
    destruct (scaffold rt name tp w1) as [[[[]|e|c] w2] t2];
      cbn [result trace fst snd app] in *;
      (split; [|intros _; eexists; simpl; eauto 8]);
      intros answer Hin; unfold report in Hin; in_cases Hin;
      try discriminate Hin; exact (Hs _ Hin).
Qed.

Lemma harmless_filter (t : list Event) :
  Forall (fun e => harmless e = true) t ->
  filter (fun e => negb (harmless e)) t = [].
Proof.
  induction 1 as [|e t He _ IH]; [reflexivity|].
  cbn [filter]. now rewrite He, IH.
Qed.

(** X12.  When [create-next-app] fails, nothing else is done.  The spinner
    is failed, the error of the command is reported, and the action ends in
    [process.exit(1)]: the failed command is the one thing the run did that
    is not a look at the disk, a prompt or a line of output. *)
Theorem create_failure_stops_everything (projectName : option string) (w : W)
  (name : string) (err : Error) (after : W) :
  result (resolveName rt projectName w) = Returned name ->
  fs_existsSync rt (path_join rt (process_cwd rt w) name) w = false ->
  child_execSync rt (createNextAppCommand name)
    {| stdio := inherit; cwd := process_cwd rt w |} w = (Some err, after) ->
  let run := initAction rt projectName w in
  result run = Exited 1
  /\ world run = after
  /\ filter (fun ev => negb (harmless ev)) (trace run)
     = [EvExecSync (createNextAppCommand name)
          {| stdio := inherit; cwd := process_cwd rt w |} (Some err)]
  /\ In (EvSpinner fail "Gagal membuat Next.js app") (trace run)
  /\ In (EvConsole stderr (MsgError err)) (trace run).
Proof.
  intros Hname Hno Hfail run. subst run.
  pose proof (resolveName_harmless rt projectName w) as Hquiet.
  rewrite initAction_eq.
  body_cases projectName w; rewrite E0 in Hname, Hquiet;
    cbn [result trace fst snd] in Hname, Hquiet; try discriminate Hname;
    injection Hname as ->; unfold join in *; subst tp; try subst here;
    try congruence.
  rewrite Hfail in Ex. injection Ex as <- <-.
  cbn [result world trace fst snd]. unfold report.
  repeat split.
  - rewrite !filter_app, (harmless_filter Hquiet). reflexivity.
  - apply in_or_app. left. apply in_or_app. right. simpl. auto 8.
  - apply in_or_app. right. simpl. auto.
Qed.

(** X13.  A project folder that is not there after [create-next-app] has
    run without error ends the action.  The error of line 75 is reported and
    the action ends in [process.exit(1)]; no directory is entered, nothing is
    installed or written. *)
Theorem missing_folder_reported (projectName : option string) (w : W)
  (name : string) (after : W) :
  result (resolveName rt projectName w) = Returned name ->
  fs_existsSync rt (path_join rt (process_cwd rt w) name) w = false ->
  child_execSync rt (createNextAppCommand name)
    {| stdio := inherit; cwd := process_cwd rt w |} w = (None, after) ->
  fs_existsSync rt (path_join rt (process_cwd rt w) name) after = false ->
  let run := initAction rt projectName w in
  result run = Exited 1
  /\ world run = after
  /\ filter (fun ev => negb (harmless ev)) (trace run)
     = [EvExecSync (createNextAppCommand name)
          {| stdio := inherit; cwd := process_cwd rt w |} None;
        EvSleep 1000]
  /\ In (EvConsole stderr (MsgError (folderNotFound name))) (trace run).
Proof.
  intros Hname Hno Hok Hgone run. subst run.
  pose proof (resolveName_harmless rt projectName w) as Hquiet.
  rewrite initAction_eq.
  body_cases projectName w; rewrite E0 in Hname, Hquiet;
    cbn [result trace fst snd] in Hname, Hquiet; try discriminate Hname;
    injection Hname as ->; unfold join in *; subst tp; try subst here;
    try congruence.
  rewrite Hok in Ex. injection Ex as <-.
  cbn [result world trace fst snd]. unfold report, prelude.
  repeat split.
  - rewrite !filter_app, (harmless_filter Hquiet). reflexivity.
  - apply in_or_app. right. simpl. auto.
Qed.

(** *** The order of the commands *)

Lemma Began_bind {A B} (l1 l2 : list string) (m : M W A) (f : A -> M W B) :
  (forall w, Began l1 (m w)) -> (forall a w, Began l2 (f a w)) ->
  forall w, Began (l1 ++ l2) (bind m f w).
Proof.
  intros Hm Hf w. unfold Began, prefixOf in *. rewrite bind_eq.
  specialize (Hm w).
  destruct (m w) as [[[a|e|c] w1] t1]; cbn [result trace fst snd] in *.
  - destruct Hm as [_ Hm]. specialize (Hm a eq_refl).
    destruct (Hf a w1) as [[rest Hrest] Hall].
    rewrite commands_app, Hm. split.
    + exists rest. now rewrite <- app_assoc, Hrest.
    + intros b Hb. now rewrite (Hall b Hb).
  - destruct Hm as [[rest Hrest] _]. split; [|discriminate].
    exists (rest ++ l2). now rewrite app_assoc, Hrest.
  - destruct Hm as [[rest Hrest] _]. split; [|discriminate].
    exists (rest ++ l2). now rewrite app_assoc, Hrest.
Qed.

Lemma Began_all {A} (l : list string) (run : Result A * W * list Event) :
  commands (trace run) = l -> Began l run.
Proof.
  intros H. split; [exists []; now rewrite app_nil_r|auto].
Qed.

Ltac destruct_exec :=
  match goal with
  | |- context [child_execSync rt ?c ?o ?w] =>
      destruct (child_execSync rt c o w) as [[?|] ?]
  end.

Lemma installDependencies_began (targetPath : string) (w : W) :
  Began installCommands (installDependencies rt targetPath w).
Proof.
  unfold Began, prefixOf.
  cbv [installDependencies bind tryCatch execSync call spinner emit throw].
  repeat destruct_exec; cbn [result trace fst snd];
    (split; [eexists; reflexivity
            |intros a H; first [discriminate H|reflexivity]]).
Qed.

Lemma setupShadcn_began (basePath : string) (w : W) :
  Began [shadcnCommand] (setupShadcn rt basePath w).
Proof.
  unfold Began, prefixOf.
  cbv [setupShadcn bind tryCatch execSync writeJSON call console_log emit].
  destruct (fs_writeJSON rt _ _ w) as [[?|] ?]; [|destruct_exec];
    cbn [result trace fst snd];
    (split; [eexists; reflexivity
            |intros a H; first [discriminate H|reflexivity]]).
Qed.

Ltac began :=
  first
    [ intros ?; apply installDependencies_began
    | intros ?; apply setupShadcn_began
    | intros ?; apply Began_all;
      first [ apply chdir_commands | apply spinner_commands
            | apply createProjectStructure_commands
            | apply createConfigFiles_commands
            | apply printNextSteps_commands
            | apply prismaStep_commands
            | apply (proj2 (huskyStep_run _ _ _)) ]
    | eapply Began_bind; [began|intros ?; began] ].

(** However [scaffold] ends, it has run a beginning of its eight commands. *)
Lemma scaffold_began (name targetPath : string) (w : W) :
  Began (installCommands ++ bestEffortCommands) (scaffold rt name targetPath w).
Proof.
  assert (H : exists full,
             (forall w', Began full (scaffold rt name targetPath w'))
             /\ full = installCommands ++ bestEffortCommands).
  { eexists. split; [unfold scaffold; began|reflexivity]. }
  destruct H as [full [H ->]]. apply H.
Qed.

Lemma nine_NoDup (name : string) :
  NoDup (createNextAppCommand name :: installCommands ++ bestEffortCommands).
Proof.
  constructor.
  - intros H. simpl in H.
    repeat (destruct H as [H|H]; [discriminate H|]). exact H.
  - repeat (constructor; [simpl; intuition discriminate|]). constructor.
Qed.

Lemma prefixOf_NoDup (l full : list string) :
  prefixOf l full -> NoDup full -> NoDup l.
Proof. intros [rest <-] H. now apply NoDup_app_remove_r in H. Qed.

(** X14.  Processes are started in one fixed order, however the run ends.
    The command lines a run hands to [execSync] are a beginning of the nine
    of a complete run, which are all different: no command is started out
    of turn, none twice, and none at all when the prompt is closed. *)
Theorem commands_never_out_of_order (projectName : option string) (w : W) :
  let run := initAction rt projectName w in
  (forall name,
      result (resolveName rt projectName w) = Returned name ->
      prefixOf (commands (trace run))
        (createNextAppCommand name :: installCommands ++ bestEffortCommands))
  /\ (forall e, result (resolveName rt projectName w) = Thrown e ->
                commands (trace run) = [])
  /\ NoDup (commands (trace run)).
Proof.
  cbv zeta.
  assert (Hfirst : forall name,
             result (resolveName rt projectName w) = Returned name ->
             prefixOf (commands (trace (initAction rt projectName w)))
               (createNextAppCommand name
                :: installCommands ++ bestEffortCommands)).
  { intros name Hname.
    pose proof (resolveName_commands rt projectName w) as Hsilent.
    rewrite initAction_eq.
    body_cases projectName w; rewrite E0 in Hname, Hsilent;
      cbn [result trace fst snd] in Hname, Hsilent |- *;
      try discriminate Hname; injection Hname as ->;
      unfold report, prelude.
    - rewrite commands_app, Hsilent. eexists. reflexivity.
    - rewrite !commands_app, Hsilent. eexists. reflexivity.
    - rewrite !commands_app, Hsilent. eexists. reflexivity.
    - destruct (scaffold_began name tp w1) as [[rest Hrest] _].
      destruct (scaffold rt name tp w1) as [[[[]|e|c] w2] t2];
        cbn [result trace fst snd] in *;
        rewrite !commands_app, Hsilent; exists rest;
        cbn [commands flat_map app]; rewrite ?app_nil_r;
        fold (commands t2); now rewrite Hrest. }
  assert (Hnone : forall e,
             result (resolveName rt projectName w) = Thrown e ->
             commands (trace (initAction rt projectName w)) = []).
  { intros e He. rewrite initAction_eq.
    body_cases projectName w; rewrite E0 in He; try discriminate He.
    reflexivity. }
  split; [exact Hfirst|]. split; [exact Hnone|].
  destruct (resolveName_run rt projectName w) as [_ [[name [Hr _]]|[e [Hr _]]]].
  - exact (prefixOf_NoDup (Hfirst name Hr) (nine_NoDup name)).
  - rewrite (Hnone e Hr). constructor.
Qed.

(** *** Where the effects go *)

Lemma Sat_forEach_In (R : Result unit -> list Event -> Prop)
  `{Compositional R} {A} (xs : list A) (body : A -> M W unit) :
  (forall x, In x xs -> Sat R (body x)) -> Sat R (forEach xs body).
Proof.
  intros Hbody. induction xs as [|x xs IH]; simpl.
  - apply Sat_ret; assumption.
  - apply Sat_bind; [assumption|apply Hbody; now left|intros _].
    apply IH. intros y Hy. apply Hbody. now right.
Qed.

Ltac in_paths :=
  first [ apply ValidateNamingProofs.arrayIncludes_In; reflexivity
        | unfold projectPaths, projectFolders;
          apply in_or_app; left; apply in_or_app; left; assumption ].

Ltac confined_event :=
  cbn [confined];
  first [ exact I
        | reflexivity
        | eexists; split; [|reflexivity]; in_paths
        | left; split; reflexivity
        | right; left; split; [in_paths|reflexivity]
        | right; right; split; [in_paths|reflexivity] ].

Ltac confined_side :=
  unfold AlwaysR; intros;
  repeat (apply Forall_app; split); try assumption;
  repeat (apply Forall_cons; [confined_event|]); try apply Forall_nil.

Lemma scaffold_confined (here name targetPath : string) :
  Sat (AlwaysR (confined (path_join rt) here targetPath name))
    (scaffold rt name targetPath).
Proof.
  unfold scaffold, installDependencies, createProjectStructure,
    createConfigFiles, setupShadcn, huskyStep, setupHusky, prismaStep,
    setupPrisma, printNextSteps, join.
  sat_core
    ltac:(first [ apply Sat_forEach_In; [typeclasses eauto|intros ? ?]
                | apply Sat_tryCatch; [typeclasses eauto| |intros ?] ])
    confined_side.
Qed.

Lemma harmless_confined (j : string -> string -> string)
  (here targetPath name : string) (t : list Event) :
  Forall (fun e => harmless e = true) t ->
  (forall p found, In (EvExistsSync p found) t -> p = targetPath) ->
  Forall (confined j here targetPath name) t.
Proof.
  intros H Hp. apply Forall_forall. intros e Hin.
  rewrite Forall_forall in H. specialize (H e Hin).
  destruct e; try discriminate H; try exact I.
  simpl. eapply Hp. eassumption.
Qed.

(** X15.  Every effect of a run stays where it belongs.  [create-next-app]
    is started in the starting directory with the terminal attached; the
    installs are started in the project folder with the terminal attached,
    the three best-effort commands there with their output captured.  The
    process enters no directory but the project folder.  Every path handed
    to [fs-extra] is one of a fixed list of relative paths joined to the
    project folder, and none of these is absolute or holds a [..] segment:
    the starting directory gets nothing but the new folder. *)
Theorem effects_confined (projectName : option string) (w : W)
  (name : string) :
  result (resolveName rt projectName w) = Returned name ->
  let here := process_cwd rt w in
  let targetPath := path_join rt here name in
  Forall (confined (path_join rt) here targetPath name)
    (trace (initAction rt projectName w))
  /\ forallb (fun rel => negb (climbs rel)) projectPaths = true.
Proof.
  intros Hname start target. subst start target. split; [|reflexivity].
  pose proof (resolveName_harmless rt projectName w) as Hquiet.
  pose proof (resolveName_shapes rt projectName w) as Hshape.
  assert (Hstart : Forall (confined (path_join rt) (process_cwd rt w)
                             (path_join rt (process_cwd rt w) name) name)
                     (trace (resolveName rt projectName w))).
  { apply harmless_confined; [assumption|]. intros p found Hin.
    destruct Hshape as [E|[a E]]; rewrite E in Hin; in_cases Hin;
      discriminate Hin. }
  clear Hquiet Hshape. rewrite initAction_eq.
  body_cases projectName w; rewrite E0 in Hname, Hstart;
    cbn [result trace fst snd] in Hname, Hstart |- *;
    try discriminate Hname; injection Hname as ->;
    unfold report, prelude, join in *; try subst tp; try subst here.
  - confined_side.
  - confined_side.
  - confined_side.
  - pose proof (scaffold_confined (process_cwd rt w) name
                  (path_join rt (process_cwd rt w) name) w1) as Hs.
    unfold AlwaysR in Hs.
    destruct (scaffold rt name (path_join rt (process_cwd rt w) name) w1)
      as [[[[]|e|c] w2] t2];
      cbn [result trace fst snd] in *; confined_side.
Qed.

(** *** What is written to [package.json] *)

Ltac destruct_call :=
  match goal with
  | |- context [fs_writeFile rt ?p ?c ?w0] =>
      destruct (fs_writeFile rt p c w0) as [[?|] ?]
  | |- context [fs_ensureDir rt ?p ?w0] =>
      destruct (fs_ensureDir rt p w0) as [[?|] ?]
  | |- context [fs_chmod rt ?p ?m ?w0] =>
      destruct (fs_chmod rt p m w0) as [[?|] ?]
  | |- context [fs_readJSON rt ?p ?w0] =>
      destruct (fs_readJSON rt p w0) as [?|?] eqn:?
  | |- context [fs_writeJSON rt ?p ?d ?w0] =>
      destruct (fs_writeJSON rt p d w0) as [[?|] ?]
  end; cbv beta iota.

(** X16.  [createConfigFiles] merges its scripts into the [package.json] it
    finds.  The one JSON file it writes is the [package.json] of the
    project, and what it writes is what it read there with the [scripts]
    property replaced by an object in which the nine scripts of the tool are
    set (an existing [dev] or [test] is overwritten).  When the [scripts] it
    read is an object, every other script of it is kept; when it is absent,
    [null], a boolean or a number, there is no other script.  Every other
    property of the file is as it was. *)
Theorem scripts_merged (basePath : string) (w : W) (q : string)
  (written : jsobject) (err : option Error) :
  In (EvWriteJSON q written err) (trace (createConfigFiles rt basePath w)) ->
  q = path_join rt basePath "package.json"
  /\ exists w' pkg,
       fs_readJSON rt q w' = inr pkg
       /\ (forall k, k <> "scripts" ->
                     getProperty written k = getProperty pkg k)
       /\ exists merged,
            getProperty written "scripts" = Some (JObject merged)
            /\ getProperty merged "test" = Some (JString "vitest")
            /\ getProperty merged "checkdb"
               = Some (JString "ts-node src/utils/check-db.ts")
            /\ getProperty merged "dev"
               = Some (JString "pnpm run checkdb && next dev")
            /\ getProperty merged "test:ui" = Some (JString "vitest --ui")
            /\ getProperty merged "test:e2e" = Some (JString "playwright test")
            /\ getProperty merged "test:e2e:ui"
               = Some (JString "playwright test --ui")
            /\ getProperty merged "lint:fix" = Some (JString "eslint . --fix")
            /\ getProperty merged "format"
               = Some (JString "prettier --write .")
            /\ getProperty merged "prepare" = Some (JString "husky")
            /\ (forall k,
                   ~ In k ["test"; "checkdb"; "dev"; "test:ui"; "test:e2e";
                           "test:e2e:ui"; "lint:fix"; "format"; "prepare"] ->
                   match getProperty pkg "scripts" with
                   | Some (JObject fields) =>
                       getProperty merged k = getProperty fields k
                   | None | Some JNull | Some (JBool _) | Some (JNumber _) =>
                       getProperty merged k = None
                   | Some (JString _) | Some (JArray _) => True
                   end).
Proof.
  assert (Hset : forall base k v,
             In (k, v) scripts ->
             getProperty (extend base scripts) k = Some v).
  { intros base k v Hin.
    exact (@getProperty_extend_same base _ _ _ scripts_NoDup Hin). }
  cbv [createConfigFiles bind writeFile ensureDir call readJSON writeJSON join].
  repeat destruct_call; cbv [trace snd app]; intros H; in_cases H;
    try discriminate H; injection H as <- <- _;
    (split; [reflexivity|]); eexists; eexists; (split; [eassumption|]);
    (split; [intros k Hk; now apply getProperty_setProperty_other|]);
    eexists; (split; [apply getProperty_setProperty_same|]);
    repeat (split; [apply Hset; found|]);
    intros k Hk;
    match goal with
    | |- match getProperty ?pkg "scripts" with _ => _ end =>
        pose proof (@getProperty_extend_other
                      (spread (getProperty pkg "scripts")) scripts k Hk)
          as Hkeep;
        destruct (getProperty pkg "scripts") as [[| | | | |]|];
        try exact I; exact Hkeep
    end.
Qed.

(** X17.  [setupHusky] adds [lint-staged] to [package.json] and touches
    nothing else in it.  The one JSON file it writes is the [package.json]
    of the project; what it writes is what it read there with the
    [lint-staged] property set, all other properties (the scripts among
    them) as they were. *)
Theorem lint_staged_added (basePath : string) (w : W) (q : string)
  (written : jsobject) (err : option Error) :
  In (EvWriteJSON q written err) (trace (setupHusky rt basePath w)) ->
  q = path_join rt basePath "package.json"
  /\ exists w' pkg,
       fs_readJSON rt q w' = inr pkg
       /\ getProperty written "lint-staged" = Some (JObject lintStaged)
       /\ (forall k, k <> "lint-staged" ->
                     getProperty written k = getProperty pkg k).
Proof.
  cbv [setupHusky bind writeFile chmod call readJSON writeJSON join].
  repeat destruct_call; cbv [trace snd app]; intros H; in_cases H;
    try discriminate H; injection H as <- <- _;
    (split; [reflexivity|]); eexists; eexists; (split; [eassumption|]);
    (split; [apply getProperty_setProperty_same
            |intros k Hk; now apply getProperty_setProperty_other]).
Qed.

(** *** The Husky step *)

Ltac found := solve [repeat first [left; reflexivity | right]].

(** X18.  The Husky warning tells exactly whether the hook is in place.  In
    any run of the Husky step, the warning is printed if and only if the
    final [pre-commit] hook, the one that calls the naming validator, has
    not been written: a step without a warning has installed the hook, and a
    step with a warning has not, whatever it wrote before failing. *)
Theorem husky_warning_iff_no_hook (targetPath : string) (w : W) :
  let t := trace (huskyStep rt targetPath w) in
  In huskyWarning t <->
  ~ In (EvWriteFile (path_join rt targetPath ".husky/pre-commit")
          updatedPreCommit None) t.
Proof.
  cbv zeta. unfold huskyWarning.
  cbv [huskyStep setupHusky bind tryCatch execSync writeFile chmod call
       readJSON writeJSON spinner emit join].
  destruct (child_execSync rt _ _ w) as [[?|] ?]; cbv beta iota;
    repeat destruct_call; cbv [trace snd app];
    (split; [intros Hw Hf|intros Hn]);
    first [ solve [in_cases Hw; discriminate Hw]
          | solve [in_cases Hf; discriminate Hf]
          | found
          | exfalso; apply Hn; found ].
Qed.

(** *** What a run that returns has done *)

Section Wrote.

Variable ev : Event.

Lemma Wrote_bind_l {A B} (m : M W A) (f : A -> M W B) :
  Sat (WroteR ev) m -> Sat (WroteR ev) (bind m f).
Proof.
  intros Hm w. rewrite bind_eq. specialize (Hm w). unfold WroteR in *.
  destruct (m w) as [[[a|e|c] w1] t1]; cbn [result trace fst snd ended] in *;
    try discriminate.
  intros _. apply in_or_app. left. now apply Hm.
Qed.

Lemma Wrote_bind_r {A B} (m : M W A) (f : A -> M W B) :
  (forall a, Sat (WroteR ev) (f a)) -> Sat (WroteR ev) (bind m f).
Proof.
  intros Hf w. rewrite bind_eq. unfold WroteR in *.
  destruct (m w) as [[[a|e|c] w1] t1]; cbn [result trace fst snd ended] in *;
    try discriminate.
  intros H. apply in_or_app. right. now apply Hf.
Qed.

Lemma Wrote_tryCatch {A} (body : M W A) (handler : Error -> M W A) :
  Sat (WroteR ev) body -> (forall e, Sat (WroteR ev) (handler e)) ->
  Sat (WroteR ev) (tryCatch body handler).
Proof.
  intros Hbody Hh w. rewrite tryCatch_eq. specialize (Hbody w).
  unfold WroteR in *.
  destruct (body w) as [[[a|e|c] w1] t1]; cbn [result trace fst snd ended] in *;
    try discriminate; [assumption|].
  intros H. apply in_or_app. right. now apply Hh.
Qed.

Lemma Wrote_call (op : W -> option Error * W) (kind : option Error -> Event) :
  ev = kind None -> Sat (WroteR ev) (call op kind).
Proof.
  intros -> w. unfold WroteR, call.
  destruct (op w) as [[e|] w']; cbn [result trace fst snd ended];
    [discriminate|]. intros _. now left.
Qed.

End Wrote.

Lemma Wrote_forEach {A} (kind : A -> Event) (x : A) (xs : list A)
  (body : A -> M W unit) :
  In x xs -> (forall y, Sat (WroteR (kind y)) (body y)) ->
  Sat (WroteR (kind x)) (forEach xs body).
Proof.
  intros Hin Hbody. induction xs as [|y xs IH]; [destruct Hin|].
  simpl. destruct Hin as [->|Hin].
  - apply Wrote_bind_l, Hbody.
  - apply Wrote_bind_r. intros _. now apply IH.
Qed.

Ltac wrote :=
  first
    [ apply Wrote_call; reflexivity
    | match goal with
      | Hin : In ?x ?xs
        |- Sat (WroteR (EvEnsureDir (?j ?tp ?x) None)) (forEach ?xs _) =>
          apply (@Wrote_forEach _ (fun y => EvEnsureDir (j tp y) None)
                   x xs _ Hin);
          intros ?; apply Wrote_call; reflexivity
      end
    | apply Wrote_bind_l; wrote
    | apply Wrote_tryCatch; [wrote|intros ?; wrote]
    | apply Wrote_bind_r; intros ?; wrote ].

Lemma scaffold_ensured (name targetPath folder : string) :
  In folder projectFolders ->
  Sat (WroteR (EvEnsureDir (path_join rt targetPath folder) None))
    (scaffold rt name targetPath).
Proof.
  unfold projectFolders. intros H. apply in_app_or in H.
  unfold scaffold, createProjectStructure, join.
  destruct H as [H|[<-|[]]]; wrote.
Qed.

Lemma scaffold_wrote (name targetPath rel : string) (data : Content) :
  In (rel, data) projectFiles ->
  Sat (WroteR (EvWriteFile (path_join rt targetPath rel) data None))
    (scaffold rt name targetPath).
Proof.
  intros H. unfold projectFiles in H. simpl in H.
  unfold scaffold, join.
  repeat (destruct H as [H|H]; [injection H as <- <-; wrote|]).
  destruct H.
Qed.

Lemma scaffold_shadcn (name targetPath : string) :
  Sat (WroteR (EvWriteJSON (path_join rt targetPath "components.json")
                 componentsJson None))
    (scaffold rt name targetPath).
Proof. unfold scaffold, join. wrote. Qed.

Lemma scaffold_entered (name targetPath : string) :
  Sat (WroteR (EvChdir targetPath None)) (scaffold rt name targetPath).
Proof. unfold scaffold, join. wrote. Qed.

(** X19.  A run that returns has laid out the whole project.  When the
    action returns, the process has entered the project folder, every folder
    of the layout has been made, every file of the layout has been written
    with its content, and [components.json] has been written, each without
    error.  (The files of the Husky step are the exception: see the
    warning.) *)
Theorem success_means_complete (projectName : option string) (w : W) :
  let run := initAction rt projectName w in
  result run = Returned tt ->
  exists name,
    result (resolveName rt projectName w) = Returned name
    /\ let targetPath := path_join rt (process_cwd rt w) name in
       In (EvChdir targetPath None) (trace run)
       /\ (forall folder,
              In folder projectFolders ->
              In (EvEnsureDir (path_join rt targetPath folder) None)
                (trace run))
       /\ (forall rel data,
              In (rel, data) projectFiles ->
              In (EvWriteFile (path_join rt targetPath rel) data None)
                (trace run))
       /\ In (EvWriteJSON (path_join rt targetPath "components.json")
                componentsJson None) (trace run).
Proof.
  cbv zeta. rewrite initAction_eq.
  body_cases projectName w; cbn [result trace fst snd]; try discriminate.
  pose proof (fun ev (H : Sat (WroteR ev) (scaffold rt n tp)) => H w1) as Hs.
  unfold WroteR in Hs.
  pose proof (@scaffold_ensured n tp) as Hfolders.
  pose proof (@scaffold_wrote n tp) as Hfiles.
  pose proof (scaffold_shadcn n tp) as Hjson.
  pose proof (scaffold_entered n tp) as Hdir.
  unfold join in *. subst tp here.
  destruct (scaffold rt n (path_join rt (process_cwd rt w) n) w1)
    as [[[[]|e|c] w2] t2]; cbn [result trace fst snd ended] in *;
    try discriminate.
  intros _. exists n. rewrite E0. split; [reflexivity|].
  assert (Hin : forall ev, In ev t2 ->
                           In ev (t0 ++ prelude n (process_cwd rt w)
                                          (path_join rt (process_cwd rt w) n)
                                          true ++ t2)).
  { intros ev H. apply in_or_app. right. apply in_or_app. now right. }
  repeat split.
  - apply Hin, Hs; [apply Hdir|reflexivity].
  - intros folder H. apply Hin, Hs; [now apply Hfolders|reflexivity].
  - intros rel data H. apply Hin, Hs; [now apply Hfiles|reflexivity].
  - apply Hin, Hs; [apply Hjson|reflexivity].
Qed.

End Runs.

(** *** Runs on the small machine *)

Lemma argument_not_validated_witness :
  accepted (validate "My App!") = false
  /\ exists e,
       In (EvExecSync (createNextAppCommand "My App!")
             {| stdio := inherit; cwd := "/work" |} e)
          (trace (Machine.init (Some "My App!") (Machine.fresh [] []))).
Proof.
  split; [reflexivity|].
  destruct (@argument_not_validated Machine.World Machine.runtime "My App!"
              (Machine.fresh [] [])) as (_ & _ & H); [discriminate|].
  apply H. reflexivity.
Defined.

Lemma create_failure_stops_everything_witness :
  let w := Machine.fresh [] [createNextAppCommand "shop"] in
  result (Machine.init (Some "shop") w) = Exited 1
  /\ world (Machine.init (Some "shop") w) = w.
Proof.
  intros w.
  destruct (@create_failure_stops_everything Machine.World Machine.runtime
              (Some "shop") w "shop"
              ("Command failed: " ++ createNextAppCommand "shop")%string w
              eq_refl eq_refl eq_refl) as (Hr & Hw & _).
  split; assumption.
Defined.

(** [create-next-app] given [my app] makes the folder [my]; the folder
    [my app] the action looks for is not there. *)
Lemma missing_folder_reported_witness :
  let run := Machine.init (Some "my app") (Machine.fresh [] []) in
  result run = Exited 1
  /\ In (EvConsole stderr (MsgError (folderNotFound "my app"))) (trace run).
Proof.
  intros run.
  destruct (@missing_folder_reported Machine.World Machine.runtime
              (Some "my app") (Machine.fresh [] []) "my app"
              (Machine.effect (createNextAppCommand "my app")
                 {| stdio := inherit; cwd := "/work" |} (Machine.fresh [] []))
              eq_refl eq_refl eq_refl eq_refl) as (Hr & _ & _ & Hm).
  split; assumption.
Defined.

(** [path.join] keeps a separator at the end. *)
Example join_trailing_separator :
  map (fun ab => Posix.join (fst ab) (snd ab))
    [("/work", "shop/"); ("/work", "shop"); ("a", "../"); ("", "")]
  = ["/work/shop/"; "/work/shop"; "./"; "."].
Proof. reflexivity. Qed.

Lemma effects_confined_witness :
  Forall (confined Posix.join "/work" "/work/shop" "shop")
    (trace (Machine.init (Some "shop") (Machine.fresh [] []))).
Proof.
  destruct (@effects_confined Machine.World Machine.runtime (Some "shop")
              (Machine.fresh [] []) "shop" eq_refl) as [H _].
  exact H.
Defined.

(** [create-next-app] leaves a [build] script; it is still there after
    [createConfigFiles], beside the scripts of the tool. *)
Lemma scripts_merged_witness :
  let created :=
    Machine.effect (createNextAppCommand "shop")
      {| stdio := inherit; cwd := "/work" |} (Machine.fresh [] []) in
  let w := world (createProjectStructure Machine.runtime "/work/shop" created) in
  exists written merged,
    In (EvWriteJSON "/work/shop/package.json" written None)
      (trace (createConfigFiles Machine.runtime "/work/shop" w))
    /\ getProperty written "scripts" = Some (JObject merged)
    /\ getProperty merged "prepare" = Some (JString "husky").
Proof.
  intros created w.
  assert (Hin : exists written,
             In (EvWriteJSON "/work/shop/package.json" written None)
               (trace (createConfigFiles Machine.runtime "/work/shop" w)))
    by (vm_compute; eexists; repeat first [left; reflexivity | right]).
  destruct Hin as [written Hin].
  destruct (@scripts_merged Machine.World Machine.runtime "/work/shop" w
              "/work/shop/package.json" written None Hin)
    as (_ & w' & pkg & _ & _ & merged & Hscripts
        & _ & _ & _ & _ & _ & _ & _ & _ & Hprepare & _).
  exists written, merged. split; [exact Hin|]. split; [exact Hscripts|].
  exact Hprepare.
Defined.

Lemma lint_staged_added_witness :
  let created :=
    Machine.effect (createNextAppCommand "shop")
      {| stdio := inherit; cwd := "/work" |} (Machine.fresh [] []) in
  let w :=
    Machine.effect huskyCommand {| stdio := pipe; cwd := "/work/shop" |}
      created in
  exists written,
    In (EvWriteJSON "/work/shop/package.json" written None)
      (trace (setupHusky Machine.runtime "/work/shop" w))
    /\ getProperty written "lint-staged" = Some (JObject lintStaged).
Proof.
  intros created w.
  assert (Hin : exists written,
             In (EvWriteJSON "/work/shop/package.json" written None)
               (trace (setupHusky Machine.runtime "/work/shop" w)))
    by (vm_compute; eexists; repeat first [left; reflexivity | right]).
  destruct Hin as [written Hin].
  destruct (@lint_staged_added Machine.World Machine.runtime "/work/shop" w
              "/work/shop/package.json" written None Hin)
    as (_ & _ & _ & _ & Hset & _).
  exists written. split; [exact Hin|exact Hset].
Defined.

Lemma success_means_complete_witness :
  In (EvWriteFile "/work/shop/.env.example" envExample None)
    (trace (Machine.init (Some "shop") (Machine.fresh [] []))).
Proof.
  destruct (@success_means_complete Machine.World Machine.runtime
              (Some "shop") (Machine.fresh [] []))
    as [name [Hname (_ & _ & Hfiles & _)]].
  - vm_compute. reflexivity.
  - vm_compute in Hname. injection Hname as <-.
    refine (Hfiles ".env.example" envExample _).
    unfold projectFiles. simpl. auto 20.
Defined.

(** A Husky step whose [husky init] fails warns and writes no hook; one
    that goes through writes the hook and does not warn. *)
Example husky_step_both_ways :
  let created :=
    Machine.effect (createNextAppCommand "shop")
      {| stdio := inherit; cwd := "/work" |} (Machine.fresh [] []) in
  let hook :=
    EvWriteFile "/work/shop/.husky/pre-commit" updatedPreCommit None in
  let broken :=
    {| Machine.entries := Machine.entries created;
       Machine.jsonFiles := Machine.jsonFiles created;
       Machine.workdir := "/work/shop"; Machine.typed := [];
       Machine.failing := [huskyCommand] |} in
  (In hook (trace (huskyStep Machine.runtime "/work/shop" created))
   /\ ~ In huskyWarning (trace (huskyStep Machine.runtime "/work/shop" created)))
  /\ (In huskyWarning (trace (huskyStep Machine.runtime "/work/shop" broken))
      /\ ~ In hook (trace (huskyStep Machine.runtime "/work/shop" broken))).
Proof.
  vm_compute.
  repeat split; try (repeat first [left; reflexivity | right]);
    intros H; repeat (destruct H as [H|H]; [discriminate H|]); exact H.
Qed.

(** *** The layout and the naming rules *)

(** X20.  The files the tool writes obey the naming rules the tool installs.
    A commit whose staged paths, relative to the repository, are among the
    files the action writes passes the generated validator: the layout never
    trips the hook that comes with it. *)
Theorem layout_passes_validator (Disk : Type)
  (path_relative : string -> string -> string)
  (p : ValidateNaming.Process Disk) :
  (forall file,
      In file (skipn 2 (ValidateNaming.argv p)) ->
      In (path_relative (ValidateNaming.cwd p) file) writtenFiles) ->
  fst (ValidateNaming.main path_relative p)
  = {| ValidateNaming.termination := ValidateNaming.EndOfScript;
       ValidateNaming.errorOutput := [];
       ValidateNaming.standardOutput := [ValidateNaming.NamingValid] |}.
Proof.
  intros H. apply ValidateNamingMore.no_violation_passes.
  apply not_true_is_false. intros E. apply existsb_exists in E.
  destruct E as [file [Hin E]]. specialize (H file Hin).
  assert (Hall : forallb (fun rel => negb (ValidateNaming.violates rel))
                   writtenFiles = true) by reflexivity.
  rewrite forallb_forall in Hall. specialize (Hall _ H).
  rewrite E in Hall. discriminate Hall.
Qed.

Lemma layout_passes_validator_witness :
  fst (Machine.validate
         ["src/app/api/auth/[...nextauth]/route.ts"; "/repo/src/lib/db.ts";
          "src/store/user-store.ts"; "src/components/forms/.gitkeep";
          ".husky/validate-naming.js"])
  = {| ValidateNaming.termination := ValidateNaming.EndOfScript;
       ValidateNaming.errorOutput := [];
       ValidateNaming.standardOutput := [ValidateNaming.NamingValid] |}.
Proof.
  apply (@layout_passes_validator unit (Posix.relative "/repo")).
  intros file H. simpl in H.
  repeat (destruct H as [<-|H];
          [vm_compute; repeat first [left; reflexivity | right]|]).
  destruct H.
Defined.

End InitMore.
